(** * App.tsx: the state wiring of the chat client

    A shallow embedding of the [App] component of [src/App.tsx]: its
    [useState] cells, the handlers it passes to its children and the
    realtime [onMessage] callback, followed by the properties of the
    specification stated over them.

    Conventions of the embedding.
    - A [string | null] or optional field is an [option string]; JavaScript
      truthiness of such a value is [truthy] (absent and the empty string are
      falsy).
    - A handler is a computation in [M]: it reads and replaces the state
      cells, records the remote calls, console errors and alerts it performs,
      and completes normally or by throwing.
    - A handler closes over the values of the render that created it.  That
      render is the section variable [cl]; state cells written through a
      setter are written to the current state.
    - The result of a remote call, the values [uuidv4()] returns and the
      clock are inputs of the handler that consumes them.
    - A handler given as a whole ([handleLogin], [handleCreateServer], ...)
      runs with the results of the calls it awaits.  For sessions, the
      handlers are also given in the pieces between their awaits, so that
      other events can come in between and pending calls can settle in any
      order; the pieces, run one after the other, are the whole handler. *)

From Stdlib Require Import ZArith String List Bool Lia.
From stdpp Require Import base option list strings.

(** [a === b] on strings. *)
Infix "===" := String.eqb (at level 70, no associativity).

(** ** Data model (types.ts) *)

Inductive ChannelType : Type := text | voice.

Definition ChannelType_eqb (a b : ChannelType) : bool :=
  match a, b with
  | text, text | voice, voice => true
  | _, _ => false
  end.

Module User.
Record t : Type := mk {
  id : string;
  username : string;
  avatar : option string
}.
End User.

Module Message.
Record t : Type := mk {
  id : string;
  channelId : string;
  content : string;
  senderId : string;
  senderName : string;
  senderAvatar : option string;
  timestamp : Z;
  isSystem : bool
}.
End Message.

Module Channel.
Record t : Type := mk {
  id : string;
  name : string;
  type : ChannelType;
  messages : option (list Message.t)
}.
End Channel.

Module Role.
Record t : Type := mk {
  id : string;
  name : string
}.
End Role.

Module ServerMember.
Record t : Type := mk {
  userId : string;
  username : string;
  avatar : string;
  roles : list string
}.
End ServerMember.

Module Server.
Record t : Type := mk {
  id : string;
  name : string;
  password : option string;
  ownerId : string;
  channels : list Channel.t;
  roles : list Role.t;
  members : list ServerMember.t
}.
End Server.

(** ** JavaScript idioms *)

(** Truthiness of a [string | null | undefined]. *)
Definition truthy (o : option string) : bool :=
  match o with
  | Some s => negb (s === "")
  | None => false
  end.

(** [a === b] on values that are a string or absent. *)
Definition strict_eq (a b : option string) : bool :=
  match a, b with
  | Some x, Some y => x === y
  | None, None => true
  | _, _ => false
  end.

(** [ch.messages || []] *)
Definition messages_or_empty (ch : Channel.t) : list Message.t :=
  default [] (Channel.messages ch).

(** ** Component state: one field per [useState] cell *)

Record AppState : Type := mkState {
  user : option User.t;
  servers : list Server.t;
  activeServerId : option string;
  activeChannelId : option string;
  isVoiceConnected : bool;
  isLoading : bool;
  isMuted : bool;
  isDeafened : bool;
  noiseSuppression : bool;
  inputVolume : Z;
  outputVolume : Z;
  showCreateModal : bool;
  showJoinModal : bool;
  showSettingsModal : bool;
  showServerSettingsModal : bool
}.

(** The arguments of the [useState] calls. *)
Definition initialState : AppState :=
  {| user := None; servers := []; activeServerId := None;
     activeChannelId := None; isVoiceConnected := false; isLoading := true;
     isMuted := false; isDeafened := false; noiseSuppression := true;
     inputVolume := 100; outputVolume := 100; showCreateModal := false;
     showJoinModal := false; showSettingsModal := false;
     showServerSettingsModal := false |}.

Definition with_user (v : option User.t) (s : AppState) : AppState :=
  mkState v (servers s) (activeServerId s) (activeChannelId s)
    (isVoiceConnected s) (isLoading s) (isMuted s) (isDeafened s)
    (noiseSuppression s) (inputVolume s) (outputVolume s) (showCreateModal s)
    (showJoinModal s) (showSettingsModal s) (showServerSettingsModal s).

Definition with_servers (v : list Server.t) (s : AppState) : AppState :=
  mkState (user s) v (activeServerId s) (activeChannelId s)
    (isVoiceConnected s) (isLoading s) (isMuted s) (isDeafened s)
    (noiseSuppression s) (inputVolume s) (outputVolume s) (showCreateModal s)
    (showJoinModal s) (showSettingsModal s) (showServerSettingsModal s).

Definition with_activeServerId (v : option string) (s : AppState) : AppState :=
  mkState (user s) (servers s) v (activeChannelId s)
    (isVoiceConnected s) (isLoading s) (isMuted s) (isDeafened s)
    (noiseSuppression s) (inputVolume s) (outputVolume s) (showCreateModal s)
    (showJoinModal s) (showSettingsModal s) (showServerSettingsModal s).

Definition with_activeChannelId (v : option string) (s : AppState) : AppState :=
  mkState (user s) (servers s) (activeServerId s) v
    (isVoiceConnected s) (isLoading s) (isMuted s) (isDeafened s)
    (noiseSuppression s) (inputVolume s) (outputVolume s) (showCreateModal s)
    (showJoinModal s) (showSettingsModal s) (showServerSettingsModal s).

Definition with_isVoiceConnected (v : bool) (s : AppState) : AppState :=
  mkState (user s) (servers s) (activeServerId s) (activeChannelId s)
    v (isLoading s) (isMuted s) (isDeafened s)
    (noiseSuppression s) (inputVolume s) (outputVolume s) (showCreateModal s)
    (showJoinModal s) (showSettingsModal s) (showServerSettingsModal s).

Definition with_isLoading (v : bool) (s : AppState) : AppState :=
  mkState (user s) (servers s) (activeServerId s) (activeChannelId s)
    (isVoiceConnected s) v (isMuted s) (isDeafened s)
    (noiseSuppression s) (inputVolume s) (outputVolume s) (showCreateModal s)
    (showJoinModal s) (showSettingsModal s) (showServerSettingsModal s).

Definition with_isMuted (v : bool) (s : AppState) : AppState :=
  mkState (user s) (servers s) (activeServerId s) (activeChannelId s)
    (isVoiceConnected s) (isLoading s) v (isDeafened s)
    (noiseSuppression s) (inputVolume s) (outputVolume s) (showCreateModal s)
    (showJoinModal s) (showSettingsModal s) (showServerSettingsModal s).

Definition with_isDeafened (v : bool) (s : AppState) : AppState :=
  mkState (user s) (servers s) (activeServerId s) (activeChannelId s)
    (isVoiceConnected s) (isLoading s) (isMuted s) v
    (noiseSuppression s) (inputVolume s) (outputVolume s) (showCreateModal s)
    (showJoinModal s) (showSettingsModal s) (showServerSettingsModal s).

(** ** Effects and the handler monad *)

(** What a handler does to the outside world: the calls into
    [services/supabase], [localStorage], the console and [alert]. *)
Inductive Effect : Type :=
| CallUpsertUser (u : User.t)
| CallCreateServer (s : Server.t) (userId : string)
| CallGetServersForUser (userId : string)
| CallSendMessage (m : Message.t)
| CallJoinServer (serverId userId : string)
| LocalStorageSetItem (key : string) (u : User.t)
| ConsoleError (label : string)
| Alert (message : string).

(** The calls that write to the backend. *)
Definition is_remote_write (e : Effect) : bool :=
  match e with
  | CallUpsertUser _ | CallCreateServer _ _ | CallSendMessage _
  | CallJoinServer _ _ => true
  | _ => false
  end.

(** Any call into the backend. *)
Definition is_remote_call (e : Effect) : bool :=
  match e with
  | CallGetServersForUser _ => true
  | _ => is_remote_write e
  end.

Inductive Completion (A : Type) : Type :=
| Normal (a : A)
| Throw (error : string).
Arguments Normal {A} a.
Arguments Throw {A} error.

Record Outcome (A : Type) : Type := mkOutcome {
  completion : Completion A;
  state : AppState;
  effects : list Effect
}.
Arguments mkOutcome {A} _ _ _.
Arguments completion {A} _.
Arguments state {A} _.
Arguments effects {A} _.

Definition M (A : Type) : Type := AppState -> Outcome A.

#[global] Instance M_ret : MRet M :=
  fun A a st => mkOutcome (Normal a) st [].

#[global] Instance M_bind : MBind M :=
  fun A B k m st =>
    match m st with
    | mkOutcome (Normal a) st1 eff1 =>
        match k a st1 with
        | mkOutcome c st2 eff2 => mkOutcome c st2 (eff1 ++ eff2)
        end
    | mkOutcome (Throw e) st1 eff1 => mkOutcome (Throw e) st1 eff1
    end.

Definition throw {A} (e : string) : M A :=
  fun st => mkOutcome (Throw e) st [].

(** [try { body } catch (error) { handler }] *)
Definition try_catch {A} (body : M A) (handler : string -> M A) : M A :=
  fun st =>
    match body st with
    | mkOutcome (Normal a) st1 eff1 => mkOutcome (Normal a) st1 eff1
    | mkOutcome (Throw e) st1 eff1 =>
        match handler e st1 with
        | mkOutcome c st2 eff2 => mkOutcome c st2 (eff1 ++ eff2)
        end
    end.

Definition perform (e : Effect) : M unit :=
  fun st => mkOutcome (Normal ()) st [e].

(** A state setter called with a value. *)
Definition set (f : AppState -> AppState) : M unit :=
  fun st => mkOutcome (Normal ()) (f st) [].

(** [await call]: the call is made; it resolves with [a] when the result is
    [Some a] and rejects when it is [None]. *)
Definition await {A} (call : Effect) (result : option A) : M A :=
  perform call ;;
  match result with
  | Some a => mret a
  | None => throw "rejected"
  end.

(** [xs[0].field]: reading a property of [undefined] is a [TypeError]. *)
Definition first_of {A} (xs : list A) : M A :=
  match xs with
  | x :: _ => mret x
  | [] => throw "TypeError"
  end.

(** ** The realtime bridge: the [onMessage] callback (lines 96-114) *)

(** The inner [server.channels.map] callback. *)
Definition mergeIntoChannel (newMessage : Message.t) (ch : Channel.t) : Channel.t :=
  if Channel.id ch === Message.channelId newMessage then
    match Channel.messages ch ≫=
            find (λ m, Message.id m === Message.id newMessage) with
    | Some _ => ch
    | None =>
        Channel.mk (Channel.id ch) (Channel.name ch) (Channel.type ch)
          (Some (messages_or_empty ch ++ [newMessage]))
    end
  else ch.

(** The [prevServers.map] callback. *)
Definition mergeIntoServer (newMessage : Message.t) (server : Server.t) : Server.t :=
  match find (λ c, Channel.id c === Message.channelId newMessage)
          (Server.channels server) with
  | None => server
  | Some _ =>
      Server.mk (Server.id server) (Server.name server)
        (Server.password server) (Server.ownerId server)
        (map (mergeIntoChannel newMessage) (Server.channels server))
        (Server.roles server) (Server.members server)
  end.

(** [setServers(prevServers => ...)]: the updater runs on the current state,
    not on the render the subscription was created in. *)
Definition onMessage (newMessage : Message.t) : M unit :=
  fun st =>
    mkOutcome (Normal ())
      (with_servers (map (mergeIntoServer newMessage) (servers st)) st) [].

(** ** Handlers of one render *)

Section Render.

(** The render whose closures the handlers are. *)
Variable cl : AppState.

(** Lines 46-58. *)
Definition loadUserServers (userId : string)
    (fetched : option (list Server.t)) : M unit :=
  try_catch
    (userServers ← await (CallGetServersForUser userId) fetched;
     set (with_servers userServers) ;;
     match userServers with
     | first :: _ =>
         if negb (truthy (activeServerId cl)) then
           set (with_activeServerId (Some (Server.id first))) ;;
           c ← first_of (Server.channels first);
           set (with_activeChannelId (Some (Channel.id c)))
         else mret ()
     | [] => mret ()
     end)
    (λ _, perform (ConsoleError "Failed to load servers:")).

(** Lines 60-68, the mount effect.  [stored] is the parsed content of
    [localStorage], when there is one.  The effect does not await the load:
    [mount] is the effect together with the load it starts, run with the
    result of the fetch; [mountStarted] below is the effect alone, with the
    fetch left pending. *)
Definition mount (stored : option User.t)
    (fetched : option (list Server.t)) : M unit :=
  match stored with
  | Some parsedUser =>
      set (with_user (Some parsedUser)) ;;
      loadUserServers (User.id parsedUser) fetched
  | None => mret ()
  end ;;
  set (with_isLoading false).

(** Lines 126-136. *)
Definition handleLogin (newUser : User.t) (upserted : option unit)
    (fetched : option (list Server.t)) : M unit :=
  try_catch
    (await (CallUpsertUser newUser) upserted ;;
     set (with_user (Some newUser)) ;;
     perform (LocalStorageSetItem "discordia_user" newUser) ;;
     loadUserServers (User.id newUser) fetched)
    (λ _, perform (ConsoleError "Failed to login:") ;;
          perform (Alert "Login failed. Please try again.")).

(** Lines 138-157.  [uuid] is what [uuidv4()] returns when it is called,
    [now] is [Date.now()], [sent] the result of the remote write. *)
Definition handleSendMessage (channelId content : string)
    (messageId : option string) (isSystem : option bool)
    (uuid : string) (now : Z) (sent : option unit) : M unit :=
  match user cl with
  | None => mret ()
  | Some u =>
      let newMessage :=
        Message.mk (if truthy messageId then default "" messageId else uuid)
          channelId content (User.id u) (User.username u) (User.avatar u)
          now (default false isSystem) in
      try_catch
        (await (CallSendMessage newMessage) sent)
        (λ _, perform (ConsoleError "Failed to send message:"))
  end.

(** Lines 159-186.  [getDefaultChannels] and [getDefaultRoles] stand for
    what the functions of [services/db] return; [uuid k] is the value of
    the [k]-th call of [uuidv4()]. *)
Definition handleCreateServer (getDefaultChannels : list Channel.t)
    (getDefaultRoles : list Role.t) (name : string)
    (password : option string) (uuid : nat -> string)
    (created : option unit) (fetched : option (list Server.t)) : M unit :=
  match user cl with
  | None => mret ()
  | Some u =>
      let newServer :=
        Server.mk (uuid 0%nat) name password (User.id u)
          (imap (λ k c, Channel.mk (uuid (S k)) (Channel.name c)
                          (Channel.type c) (Some []))
             getDefaultChannels)
          getDefaultRoles
          [ServerMember.mk (User.id u) (User.username u)
             (default "" (User.avatar u)) ["r-admin"]] in
      try_catch
        (await (CallCreateServer newServer (User.id u)) created ;;
         loadUserServers (User.id u) fetched ;;
         set (with_activeServerId (Some (Server.id newServer))) ;;
         c ← first_of (Server.channels newServer);
         set (with_activeChannelId (Some (Channel.id c))))
        (λ _, perform (ConsoleError "Failed to create server:") ;;
              perform (Alert "Failed to create server. Please try again."))
  end.

(** Lines 188-191. *)
Definition handleUpdateServer (updatedServer : Server.t) : M unit :=
  let updatedServers :=
    map (λ s, if Server.id s === Server.id updatedServer
              then updatedServer else s) (servers cl) in
  set (with_servers updatedServers).

(** Lines 193-219.  The [return] of the [catch] block leaves the handler:
    the inner block yields whether the handler goes on. *)
Definition handleJoinServer (name : string) (password : option string)
    (joined : option unit) (fetched : option (list Server.t)) : M unit :=
  match user cl with
  | None => mret ()
  | Some u =>
      match find (λ s, Server.name s === name) (servers cl) with
      | Some target =>
          if truthy (Server.password target)
             && negb (strict_eq (Server.password target) password)
          then perform (Alert "Incorrect password!")
          else
            goes_on ←
              match find (λ m, ServerMember.userId m === User.id u)
                      (Server.members target) with
              | None =>
                  try_catch
                    (await (CallJoinServer (Server.id target) (User.id u))
                       joined ;;
                     loadUserServers (User.id u) fetched ;;
                     mret true)
                    (λ _, perform (ConsoleError "Failed to join server:") ;;
                          perform
                            (Alert "Failed to join server. Please try again.") ;;
                          mret false)
              | Some _ => mret true
              end;
            if goes_on : bool then
              set (with_activeServerId (Some (Server.id target))) ;;
              c ← first_of (Server.channels target);
              set (with_activeChannelId (Some (Channel.id c)))
            else mret ()
      | None => perform (Alert "Server not found.")
      end
  end.

(** Lines 222-229. *)
Definition toggleMute : M unit :=
  if isMuted cl then set (with_isMuted false)
  else set (with_isMuted true).

(** Lines 231-241. *)
Definition toggleDeafen : M unit :=
  if isDeafened cl then
    set (with_isDeafened false) ;; set (with_isMuted false)
  else
    set (with_isDeafened true) ;; set (with_isMuted true).

(** Lines 257-258. *)
Definition activeServer : option Server.t :=
  find (λ s, strict_eq (Some (Server.id s)) (activeServerId cl)) (servers cl).

Definition activeChannel : option Channel.t :=
  activeServer ≫= λ s,
    find (λ c, strict_eq (Some (Channel.id c)) (activeChannelId cl))
      (Server.channels s).

(** Lines 265-270. *)
Definition onSelectServer (id : string) : M unit :=
  set (with_activeServerId (Some id)) ;;
  match find (λ s, Server.id s === id) (servers cl) with
  | Some server =>
      c ← first_of (Server.channels server);
      set (with_activeChannelId (Some (Channel.id c)))
  | None => mret ()
  end ;;
  set (with_isVoiceConnected false).

(** Lines 280-288.  The handler exists in the branch of the render where
    [activeServer] is defined; [server] is that value. *)
Definition onSelectChannel (server : Server.t) (id : string) : M unit :=
  let ch := find (λ c, Channel.id c === id) (Server.channels server) in
  set (with_activeChannelId (Some id)) ;;
  if match ch with
     | Some c => ChannelType_eqb (Channel.type c) voice
     | None => false
     end
  then set (with_isVoiceConnected true)
  else set (with_isVoiceConnected false).

(** Lines 314-318. *)
Definition onLeave : M unit :=
  set (with_isVoiceConnected false) ;;
  let txt :=
    activeServer ≫= λ s,
      find (λ c, ChannelType_eqb (Channel.type c) text) (Server.channels s) in
  match txt with
  | Some t => set (with_activeChannelId (Some (Channel.id t)))
  | None => mret ()
  end.

(** Lines 301 and 310: which pane the render shows. *)
Definition showsChatArea : bool :=
  match activeChannel with
  | Some c => negb (isVoiceConnected cl) && ChannelType_eqb (Channel.type c) text
  | None => false
  end.

Definition showsVoiceStage : bool :=
  match activeChannel with
  | Some c => isVoiceConnected cl && ChannelType_eqb (Channel.type c) voice
  | None => false
  end.

End Render.

(** ** The realtime bridge over a sequence of events *)

(** The state after the callback has run for each message of [evs], oldest
    first. *)
Definition deliver (evs : list Message.t) (st : AppState) : AppState :=
  foldl (λ s m, state (onMessage m s)) st evs.

(** What the callback makes of one channel over the messages [evs]. *)
Definition merged (evs : list Message.t) (ch : Channel.t) : Channel.t :=
  foldl (λ c m, mergeIntoChannel m c) ch evs.

(** The channel at position [j] of the server at position [i]. *)
Definition channel_at (st : AppState) (i j : nat) : option Channel.t :=
  servers st !! i ≫= λ s, Server.channels s !! j.

Definition message_ids (ms : list Message.t) : list string :=
  Message.id <$> ms.

(** The messages of [evs] addressed to channel [cid]. *)
Definition addressed_to (cid : string) (evs : list Message.t) : list Message.t :=
  filter (λ m, Message.channelId m = cid) evs.

(** Specification of arrival order: of the messages [evs], the first one
    carrying each identifier that is not among [seen], in the order of
    [evs]. *)
Fixpoint first_arrivals (seen : list string) (evs : list Message.t)
  : list Message.t :=
  match evs with
  | [] => []
  | m :: rest =>
      if bool_decide (Message.id m ∈ seen) then first_arrivals seen rest
      else m :: first_arrivals (Message.id m :: seen) rest
  end.

(** ** Audio toggles over a sequence of clicks *)

Inductive Toggle : Type := ClickMute | ClickDeafen.

(** Each click runs the handler of the render of the current state. *)
Definition click (t : Toggle) (st : AppState) : AppState :=
  match t with
  | ClickMute => state (toggleMute st st)
  | ClickDeafen => state (toggleDeafen st st)
  end.

Definition clicks (ts : list Toggle) (st : AppState) : AppState :=
  foldl (λ s t, click t s) st ts.

(** "isDeafened implies isMuted". *)
Definition deafened_implies_muted (st : AppState) : Prop :=
  isDeafened st = true → isMuted st = true.

(** ** The first element with a property

    [x] is the first element of [l] that satisfies [P]: what
    [l.find(...)] returns, said without [find]. *)
Definition first_with {A : Type} (P : A -> Prop) (l : list A) (x : A) : Prop :=
  ∃ pre post, l = pre ++ x :: post ∧ P x ∧ ∀ y, y ∈ pre -> ¬ P y.

(** ** The operations that move the selection *)

Definition server_ids (l : list Server.t) : list string :=
  Server.id <$> l.

Definition channel_ids (l : list Server.t) : list string :=
  l ≫= λ s, Channel.id <$> Server.channels s.

(** An identifier that is absent, or else one of [ids]. *)
Definition absent_or_in (o : option string) (ids : list string) : Prop :=
  match o with
  | Some a => a ∈ ids
  | None => True
  end.

(** The active server is a loaded server, the active channel a channel of a
    loaded server, or they are absent. *)
Definition selection_valid (st : AppState) : Prop :=
  absent_or_in (activeServerId st) (server_ids (servers st)) ∧
  absent_or_in (activeChannelId st) (channel_ids (servers st)).

(** The state once the mount effect has run and the fetch it starts, if
    any, has settled with [fetched]. *)
Definition booted (stored : option User.t)
    (fetched : option (list Server.t)) : AppState :=
  state (mount initialState stored fetched initialState).

(** ** Handlers in pieces

    An [async] handler runs up to its first [await], returns to the event
    loop, and goes on when the awaited call settles; other events are
    handled in between.  The pieces below are the stretches of code between
    the awaits.  A piece that ends at an [await] yields the task that is
    then pending: the continuation of the handler, with the render it closes
    over.  A handler that awaits [loadUserServers] goes on in the same turn
    of the event loop in which the fetch settles. *)

(** What follows the load in the handler that awaits it. *)
Inductive AfterLoad : Type :=
| JustLoad
| ThenSelectCreated (newServer : Server.t)
| ThenSelectJoined (target : Server.t).

Inductive Task : Type :=
| PendingFetch (cl : AppState) (next : AfterLoad)
| PendingUpsert (cl : AppState) (newUser : User.t)
| PendingCreate (cl : AppState) (u : User.t) (newServer : Server.t)
| PendingJoin (cl : AppState) (u : User.t) (target : Server.t).

(** What a pending call settles with. *)
Inductive Answer : Type :=
| Fetched (result : option (list Server.t))
| Written (result : option unit).

(** Line 48 up to the [await]: the fetch is started. *)
Definition loadStarted (userId : string) : M unit :=
  perform (CallGetServersForUser userId).

(** Lines 48-57 from the [await] on, in the render [cl]. *)
Definition loadSettled (cl : AppState) (fetched : option (list Server.t))
  : M unit :=
  try_catch
    (userServers ← match fetched with
                   | Some l => mret l
                   | None => throw "rejected"
                   end;
     set (with_servers userServers) ;;
     match userServers with
     | first :: _ =>
         if negb (truthy (activeServerId cl)) then
           set (with_activeServerId (Some (Server.id first))) ;;
           c ← first_of (Server.channels first);
           set (with_activeChannelId (Some (Channel.id c)))
         else mret ()
     | [] => mret ()
     end)
    (λ _, perform (ConsoleError "Failed to load servers:")).

(** Lines 180-181 and 214-215. *)
Definition selectServerAndFirstChannel (x : Server.t) : M unit :=
  set (with_activeServerId (Some (Server.id x))) ;;
  c ← first_of (Server.channels x);
  set (with_activeChannelId (Some (Channel.id c))).

(** Lines 162-175. *)
Definition newServerOf (u : User.t) (getDefaultChannels : list Channel.t)
    (getDefaultRoles : list Role.t) (name : string)
    (password : option string) (uuid : nat -> string) : Server.t :=
  Server.mk (uuid 0%nat) name password (User.id u)
    (imap (λ k c, Channel.mk (uuid (S k)) (Channel.name c)
                    (Channel.type c) (Some []))
       getDefaultChannels)
    getDefaultRoles
    [ServerMember.mk (User.id u) (User.username u)
       (default "" (User.avatar u)) ["r-admin"]].

(** Lines 61-67: the mount effect starts the load and does not wait for
    it. *)
Definition mountStarted (cl : AppState) (stored : option User.t)
  : M (list Task) :=
  tasks ← match stored with
          | Some parsedUser =>
              set (with_user (Some parsedUser)) ;;
              loadStarted (User.id parsedUser) ;;
              mret [PendingFetch cl JustLoad]
          | None => mret []
          end;
  set (with_isLoading false) ;;
  mret tasks.

(** Lines 127-128, up to the first [await]. *)
Definition loginStarted (cl : AppState) (newUser : User.t) : M (list Task) :=
  perform (CallUpsertUser newUser) ;;
  mret [PendingUpsert cl newUser].

(** Lines 159-178, up to the first [await]. *)
Definition createStarted (cl : AppState) (getDefaultChannels : list Channel.t)
    (getDefaultRoles : list Role.t) (name : string)
    (password : option string) (uuid : nat -> string) : M (list Task) :=
  match user cl with
  | None => mret []
  | Some u =>
      let newServer :=
        newServerOf u getDefaultChannels getDefaultRoles name password uuid in
      perform (CallCreateServer newServer (User.id u)) ;;
      mret [PendingCreate cl u newServer]
  end.

(** Lines 193-205, up to the first [await]; for a member, all of the
    handler. *)
Definition joinStarted (cl : AppState) (name : string)
    (password : option string) : M (list Task) :=
  match user cl with
  | None => mret []
  | Some u =>
      match find (λ s, Server.name s === name) (servers cl) with
      | Some target =>
          if truthy (Server.password target)
             && negb (strict_eq (Server.password target) password)
          then perform (Alert "Incorrect password!") ;; mret []
          else
            match find (λ m, ServerMember.userId m === User.id u)
                    (Server.members target) with
            | None =>
                perform (CallJoinServer (Server.id target) (User.id u)) ;;
                mret [PendingJoin cl u target]
            | Some _ => selectServerAndFirstChannel target ;; mret []
            end
      | None => perform (Alert "Server not found.") ;; mret []
      end
  end.

(** The continuation of a pending task when its call settles with [a];
    [None] when [a] is not an answer to that call. *)
Definition settle (t : Task) (a : Answer) : option (M (list Task)) :=
  match t, a with
  | PendingFetch cl next, Fetched fetched =>
      Some (match next with
            | JustLoad => loadSettled cl fetched
            | ThenSelectCreated newServer =>
                (* lines 179-185 *)
                try_catch
                  (loadSettled cl fetched ;;
                   selectServerAndFirstChannel newServer)
                  (λ _, perform (ConsoleError "Failed to create server:") ;;
                        perform
                          (Alert "Failed to create server. Please try again."))
            | ThenSelectJoined target =>
                (* lines 206-215 *)
                loadSettled cl fetched ;;
                selectServerAndFirstChannel target
            end ;;
            mret [])
  | PendingUpsert cl newUser, Written upserted =>
      (* lines 128-135 *)
      Some (match upserted with
            | Some _ =>
                set (with_user (Some newUser)) ;;
                perform (LocalStorageSetItem "discordia_user" newUser) ;;
                loadStarted (User.id newUser) ;;
                mret [PendingFetch cl JustLoad]
            | None =>
                perform (ConsoleError "Failed to login:") ;;
                perform (Alert "Login failed. Please try again.") ;;
                mret []
            end)
  | PendingCreate cl u newServer, Written created =>
      (* lines 178-185 *)
      Some (match created with
            | Some _ =>
                loadStarted (User.id u) ;;
                mret [PendingFetch cl (ThenSelectCreated newServer)]
            | None =>
                perform (ConsoleError "Failed to create server:") ;;
                perform (Alert "Failed to create server. Please try again.") ;;
                mret []
            end)
  | PendingJoin cl u target, Written joined =>
      (* lines 205-211 *)
      Some (match joined with
            | Some _ =>
                loadStarted (User.id u) ;;
                mret [PendingFetch cl (ThenSelectJoined target)]
            | None =>
                perform (ConsoleError "Failed to join server:") ;;
                perform (Alert "Failed to join server. Please try again.") ;;
                mret []
            end)
  | _, _ => None
  end.

(** A handler whose calls settle one after the other, with nothing in
    between: each answer settles the task the piece before it left. *)
Fixpoint settle_in_turn (answers : list Answer) (tasks : list Task) : M unit :=
  match answers, tasks with
  | a :: rest, t :: _ =>
      match settle t a with
      | Some piece => tasks' ← piece; settle_in_turn rest tasks'
      | None => mret ()
      end
  | _, _ => mret ()
  end.

(** ** The session: operations and settling calls in any order *)

(** What the user does. *)
Inductive Action : Type :=
| ActLogin (newUser : User.t)
| ActCreateServer (name : string) (password : option string)
    (uuid : nat -> string)
| ActJoinServer (name : string) (password : option string)
| ActSelectServer (id : string)
| ActSelectChannel (id : string)
| ActLeaveVoice.

(** The component between two turns of the event loop: its state and the
    calls that have not settled yet. *)
Record World : Type := mkWorld {
  current : AppState;
  pending : list Task
}.

Inductive Step : Type :=
| Start (act : Action)
| Settle (i : nat) (a : Answer).

Section Session.

(** What [getDefaultChannels()] and [getDefaultRoles()] of [services/db]
    return. *)
Variable getDefaultChannels : list Channel.t.
Variable getDefaultRoles : list Role.t.

(** The piece an action starts, taken from the render of [cl]; [None] when
    that render does not offer it (lines 243-255: the spinner and the login
    page; line 275: the channel list needs an active server; line 310: the
    voice stage). *)
Definition start (cl : AppState) (act : Action) : option (M (list Task)) :=
  if isLoading cl then None
  else
    match user cl, act with
    | None, ActLogin newUser => Some (loginStarted cl newUser)
    | None, _ => None
    | Some _, ActLogin _ => None
    | Some _, ActCreateServer name password uuid =>
        Some (createStarted cl getDefaultChannels getDefaultRoles name
                password uuid)
    | Some _, ActJoinServer name password =>
        Some (joinStarted cl name password)
    | Some _, ActSelectServer id => Some (onSelectServer cl id ;; mret [])
    | Some _, ActSelectChannel id =>
        match activeServer cl with
        | Some server => Some (onSelectChannel server id ;; mret [])
        | None => None
        end
    | Some _, ActLeaveVoice =>
        if showsVoiceStage cl then Some (onLeave cl ;; mret []) else None
    end.

(** The world after a piece has run: its state, and the tasks it left added
    to those still pending.  A piece that throws leaves none. *)
Definition after (still_pending : list Task) (r : Outcome (list Task))
  : World :=
  mkWorld (state r)
    (still_pending ++ match completion r with
                      | Normal tasks => tasks
                      | Throw _ => []
                      end).

(** One turn of the event loop: an action handled by the render of the
    current state, or the [i]-th pending call settling. *)
Definition step (w : World) (s : Step) : option World :=
  match s with
  | Start act =>
      piece ← start (current w) act;
      Some (after (pending w) (piece (current w)))
  | Settle i a =>
      t ← pending w !! i;
      piece ← settle t a;
      Some (after (delete i (pending w)) (piece (current w)))
  end.

(** The world after the mount effect of the first render. *)
Definition mounted (stored : option User.t) : World :=
  after [] (mountStarted initialState stored initialState).


(** The world after the steps [ss], when each of them can be taken. *)
Fixpoint steps (ss : list Step) (w : World) : option World :=
  match ss with
  | [] => Some w
  | s :: rest => w' ← step w s; steps rest w'
  end.


End Session.


(** ** When a settling fetch leaves the selection valid *)









From stdpp Require Import gmap.

(** ** The bot response listener (lines 70-88) *)

(** The listener builds [botMsg] and hands its channel, content and id to
    [handleSendMessage].  [botId] and [botNow] are the values of [uuidv4()]
    and [Date.now()] inside the listener, [uuid] and [now] those inside
    [handleSendMessage].  The effect is re-created when [user] changes, and
    [handleSendMessage] reads nothing else from its render, so [cl] is any
    render with the current user. *)
Definition handleGeminiResponse (cl : AppState) (channelId content : string)
    (botId : string) (botNow : Z) (uuid : string) (now : Z)
    (sent : option unit) : M unit :=
  let botMsg :=
    Message.mk botId channelId content "gemini-bot" "Gemini"
      (Some "https://www.gstatic.com/lamda/images/gemini_sparkle_v002_d4735304ff6292a690345.svg")
      botNow true in
  handleSendMessage cl channelId content (Some (Message.id botMsg))
    (Some true) uuid now sent.

(** ** What the render shows (lines 243-334) *)

Inductive Screen : Type := Spinner | LoginScreen | MainScreen.

Definition screen (cl : AppState) : Screen :=
  if isLoading cl then Spinner
  else match user cl with
       | None => LoginScreen
       | Some _ => MainScreen
       end.

(** Line 306: the [messages] prop of the chat area, when it is shown. *)
Definition chatMessages (cl : AppState) : option (list Message.t) :=
  if showsChatArea cl then messages_or_empty <$> activeChannel cl else None.

(** Line 329: the "Select a server" placeholder. *)
Definition showsPlaceholder (cl : AppState) : bool :=
  match activeServer cl with
  | Some _ => false
  | None => true
  end.

(** ** The subscription effect (lines 44 and 90-124)

    [realtimeChannelsRef] is a map from channel id to what
    [subscribeToChannel] returned.  The code tests that value for truthiness
    before it unsubscribes, so the value is a handle or absent ([null]). *)

Definition Handle : Type := nat.

Inductive BridgeCall : Type :=
| Subscribe (channelId : string)
| Unsubscribe (h : Handle).

Record Bridge : Type := mkBridge {
  (** [realtimeChannelsRef.current] *)
  registry : gmap string (option Handle);
  (** the cleanup function the last run of the effect returned: the
      [activeChannelId] and [channel] it closes over *)
  cleanup : option (string * option Handle);
  (** the dependency [activeChannelId] of the last run *)
  lastChannelId : option string
}.

(** The body of the effect for the dependency [activeChannelId];
    [subscribed] is what [subscribeToChannel] returns if it is called. *)
Definition runEffect (activeChannelId : option string)
    (subscribed : option Handle) (reg : gmap string (option Handle))
  : Bridge * list BridgeCall :=
  match activeChannelId with
  | Some id =>
      if negb (truthy (Some id)) then (mkBridge reg None activeChannelId, [])
      else
        match reg !! id with
        | Some (Some _) => (mkBridge reg None activeChannelId, [])
        | _ =>
            (mkBridge (<[id := subscribed]> reg) (Some (id, subscribed))
               activeChannelId,
             [Subscribe id])
        end
  | None => (mkBridge reg None activeChannelId, [])
  end.

(** The cleanup function of lines 118-123. *)
Definition runCleanup (b : Bridge)
  : gmap string (option Handle) * list BridgeCall :=
  match cleanup b with
  | Some (id, Some h) => (delete id (registry b), [Unsubscribe h])
  | _ => (registry b, [])
  end.

(** The first run of the effect, after the first render. *)
Definition bridgeMounted (activeChannelId : option string)
    (subscribed : option Handle) : Bridge * list BridgeCall :=
  runEffect activeChannelId subscribed ∅.

(** A later render: when the dependency differs from the one of the last
    run, the cleanup of the last run is called and the effect runs again. *)
Definition bridgeRendered (activeChannelId : option string)
    (subscribed : option Handle) (b : Bridge) : Bridge * list BridgeCall :=
  if strict_eq activeChannelId (lastChannelId b) then (b, [])
  else
    let '(reg, calls1) := runCleanup b in
    let '(b', calls2) := runEffect activeChannelId subscribed reg in
    (b', calls1 ++ calls2).

(** The renders of a session: the selected channel of each and what a
    subscription made for it would return. *)
Definition bridgeSession (first : option string * option Handle)
    (later : list (option string * option Handle)) : Bridge * list BridgeCall :=
  foldl (λ acc r, let '(b, calls) := acc in
                  let '(b', calls') := bridgeRendered r.1 r.2 b in
                  (b', calls ++ calls'))
    (bridgeMounted first.1 first.2) later.

(** ** Counting clicks *)

Definition is_deafen (t : Toggle) : bool :=
  match t with ClickDeafen => true | ClickMute => false end.

Definition count_deafen (ts : list Toggle) : nat :=
  length (filter (λ t, is_deafen t = true) ts).

(** ** What the subscription effect maintains *)

(** No entry of the registry holds a handle. *)
Definition quiet (reg : gmap string (option Handle)) : Prop :=
  ∀ k h, reg !! k ≠ Some (Some h).

(** The only entry that can hold a handle is the one the pending cleanup
    will remove; the pending cleanup is for the channel of the last run and
    what it closes over is what the registry has for that channel; there is
    no pending cleanup exactly when that channel is absent or empty. *)
Definition bridge_inv (b : Bridge) : Prop :=
  (∀ k h, registry b !! k = Some (Some h) -> cleanup b = Some (k, Some h)) ∧
  match cleanup b with
  | Some (id, s) =>
      lastChannelId b = Some id ∧ id ≠ "" ∧ registry b !! id = Some s
  | None => truthy (lastChannelId b) = false
  end.
(** ** Sample data

    The example of the specification: a server [S] with the channels
    [general] (text) and [stage] (voice), and two users. *)

Module Sample.

Definition alice : User.t := User.mk "u-alice" "alice" (Some "alice.png").
Definition bob : User.t := User.mk "u-bob" "bob" None.

Definition general : Channel.t := Channel.mk "c-general" "general" text None.
Definition stage : Channel.t := Channel.mk "c-stage" "stage" voice None.

Definition member_of (u : User.t) : ServerMember.t :=
  ServerMember.mk (User.id u) (User.username u)
    (default "" (User.avatar u)) [].

Definition S : Server.t :=
  Server.mk "s-1" "S" None "u-alice" [general; stage] [] [member_of alice].

(** A server protected by a password, of which bob is not a member. *)
Definition vault : Server.t :=
  Server.mk "s-2" "vault" (Some "secret") "u-alice" [general] []
    [member_of alice].

Definition hi (id : string) : Message.t :=
  Message.mk id "c-general" "hi" "u-alice" "alice" (Some "alice.png") 0 false.

(** A logged-in render with [S] and [vault] loaded and [general] open. *)
Definition home (u : User.t) : AppState :=
  with_activeChannelId (Some "c-general")
    (with_activeServerId (Some "s-1")
       (with_servers [S; vault]
          (with_user (Some u) (with_isLoading false initialState)))).

Definition uuids (k : nat) : string :=
  match k with
  | O => "s-new"
  | Datatypes.S O => "c-new-0"
  | _ => "c-new"
  end.

Definition defaultChannels : list Channel.t :=
  [Channel.mk "" "general" text None; Channel.mk "" "General" voice None].

(** A second server whose first channel is a voice channel, and a render
    in which it is the active server, in voice, while [S] is loaded before
    it. *)
Definition hall : Channel.t := Channel.mk "c-hall" "hall" voice None.
Definition chat : Channel.t := Channel.mk "c-chat" "chat" text None.

Definition lounge : Server.t :=
  Server.mk "s-3" "lounge" None "u-bob" [hall; chat] [] [member_of bob].

Definition away (u : User.t) : AppState :=
  with_isVoiceConnected true
    (with_activeChannelId (Some "c-hall")
       (with_activeServerId (Some "s-3")
          (with_servers [S; lounge]
             (with_user (Some u) (with_isLoading false initialState))))).

(** The server alice creates, as [handleCreateServer] builds it. *)
Definition created : Server.t :=
  newServerOf alice defaultChannels [] "new" None uuids.


(** The same, but the first fetch settles with the empty list it was
    answered with before the server existed. *)
Definition overtaken : list Step :=
  [Start (ActCreateServer "new" None uuids);
   Settle 1 (Written (Some ()));
   Settle 1 (Fetched (Some [created]));
   Settle 0 (Fetched (Some []))].


End Sample.

(** * Properties *)

(** ** Reasoning about handlers *)

(** Unfolds the monad so that a handler applied to a state computes. *)
Ltac run_handler :=
  unfold try_catch, await, first_of, perform, set, throw,
    mbind, mret, M_bind, M_ret;
  cbn.

(** Closes [x ∉ [a; b; ...]] when [x] differs from each element by its
    constructor or its text. *)
Ltac not_among :=
  let H := fresh "Hin" in
  intros H;
  repeat (apply elem_of_cons in H; destruct H as [H|H]; [discriminate H|]);
  exact (not_elem_of_nil _ H).

(** Closes the conjuncts left once a handler has been computed. *)
Ltac settle :=
  repeat split; try done; try not_among;
  try (intros; simplify_eq; done);
  try (by match goal with H : _ ∨ _ |- _ => destruct H end).

Lemma strict_eq_spec (a b : option string) :
  strict_eq a b = true ↔ a = b.
Proof.
  destruct a as [x|], b as [y|]; cbn; try (split; congruence).
  rewrite String.eqb_eq. split; congruence.
Qed.

Lemma truthy_false (o : option string) :
  truthy o = false ↔ o = None ∨ o = Some "".
Proof.
  destruct o as [s|]; cbn.
  - rewrite negb_false_iff, String.eqb_eq. split.
    + intros ->. by right.
    + intros [?|[= ->]]; done.
  - split; [by left|done].
Qed.

(** ** C1: the realtime bridge *)

(** A server without a channel for the message is returned as it is; mapping
    over its channels would give the same record. *)
Lemma mergeIntoChannel_other (m : Message.t) (ch : Channel.t) :
  Channel.id ch ≠ Message.channelId m -> mergeIntoChannel m ch = ch.
Proof.
  intros Hne. unfold mergeIntoChannel.
  by rewrite (proj2 (String.eqb_neq _ _) Hne).
Qed.

Lemma mergeIntoServer_channels (m : Message.t) (s : Server.t) :
  Server.channels (mergeIntoServer m s)
  = map (mergeIntoChannel m) (Server.channels s).
Proof.
  unfold mergeIntoServer.
  destruct (find _ (Server.channels s)) eqn:Hfind; [done|].
  symmetry. rewrite <- (map_id (Server.channels s)) at 2.
  apply map_ext_in. intros c Hc.
  apply mergeIntoChannel_other.
  apply (find_none _ _ Hfind) in Hc. by apply String.eqb_neq.
Qed.

Lemma mergeIntoServer_id (m : Message.t) (s : Server.t) :
  Server.id (mergeIntoServer m s) = Server.id s.
Proof. unfold mergeIntoServer. by destruct (find _ _). Qed.

Lemma mergeIntoChannel_id (m : Message.t) (ch : Channel.t) :
  Channel.id (mergeIntoChannel m ch) = Channel.id ch.
Proof.
  unfold mergeIntoChannel.
  destruct (_ === _); [|done]. by destruct (_ ≫= _).
Qed.

Lemma channel_at_onMessage (m : Message.t) (st : AppState) (i j : nat) :
  channel_at (state (onMessage m st)) i j
  = mergeIntoChannel m <$> channel_at st i j.
Proof.
  unfold channel_at. cbn. rewrite list_lookup_fmap.
  destruct (servers st !! i) as [s|]; [|done]. cbn.
  by rewrite mergeIntoServer_channels, list_lookup_fmap.
Qed.

Lemma channel_at_deliver (evs : list Message.t) (st : AppState) (i j : nat) :
  channel_at (deliver evs st) i j = merged evs <$> channel_at st i j.
Proof.
  revert st. induction evs as [|m evs IH]; intros st.
  - cbn. by destruct (channel_at st i j).
  - change (deliver (m :: evs) st) with (deliver evs (state (onMessage m st))).
    rewrite IH, channel_at_onMessage.
    by destruct (channel_at st i j).
Qed.

(** [ch.messages?.find(...)] finds something exactly when the identifier is
    among those of the list. *)
Lemma find_message_id (m : Message.t) (ch : Channel.t) :
  is_Some (Channel.messages ch ≫=
             find (λ x, Message.id x === Message.id m))
  ↔ Message.id m ∈ message_ids (messages_or_empty ch).
Proof.
  unfold messages_or_empty, message_ids.
  destruct (Channel.messages ch) as [ms|]; cbn.
  - split.
    + intros [x Hx]. apply find_some in Hx as [Hin Heq].
      apply String.eqb_eq in Heq. rewrite <- Heq.
      apply list_elem_of_fmap. exists x. split; [done|].
      by apply list_elem_of_In.
    + intros Hin. apply list_elem_of_fmap in Hin as (x & Heq & Hin).
      destruct (find _ ms) eqn:Hfind; [done|].
      apply list_elem_of_In in Hin.
      apply (find_none _ _ Hfind) in Hin.
      apply String.eqb_neq in Hin. congruence.
  - split; [intros [x [=]]|]. intros Hin. by apply elem_of_nil in Hin.
Qed.

(** One event on one channel. *)
Lemma mergeIntoChannel_messages (m : Message.t) (ch : Channel.t) :
  (Channel.id ch = Message.channelId m ∧
   Message.id m ∉ message_ids (messages_or_empty ch) ->
   messages_or_empty (mergeIntoChannel m ch) = messages_or_empty ch ++ [m]) ∧
  (¬ (Channel.id ch = Message.channelId m ∧
      Message.id m ∉ message_ids (messages_or_empty ch)) ->
   mergeIntoChannel m ch = ch).
Proof.
  pose proof (find_message_id m ch) as Hfind.
  unfold mergeIntoChannel.
  destruct (Channel.id ch === Message.channelId m) eqn:Hid.
  - apply String.eqb_eq in Hid.
    destruct (Channel.messages ch ≫= _) as [x|].
    + split; [|done]. intros [_ Hnot]. destruct Hnot. apply Hfind. by eexists.
    + split; [done|]. intros Hnot. destruct Hnot. split; [done|].
      intros Hin. apply Hfind in Hin. by destruct Hin.
  - apply String.eqb_neq in Hid. split; [|done]. by intros [? _].
Qed.

(** *** The specification function [first_arrivals] *)

Lemma first_arrivals_ext (seen seen' : list string) (evs : list Message.t) :
  (∀ x, x ∈ seen ↔ x ∈ seen') ->
  first_arrivals seen evs = first_arrivals seen' evs.
Proof.
  revert seen seen'. induction evs as [|m evs IH]; intros seen seen' Hext.
  - done.
  - cbn. rewrite (bool_decide_ext _ _ (Hext (Message.id m))).
    case_bool_decide; [by apply IH|].
    f_equal. apply IH. intros x. rewrite !elem_of_cons. by rewrite Hext.
Qed.

Lemma first_arrivals_fresh (seen : list string) (evs : list Message.t) :
  NoDup (message_ids (first_arrivals seen evs)) ∧
  ∀ x, x ∈ message_ids (first_arrivals seen evs) -> x ∉ seen.
Proof.
  revert seen. induction evs as [|m evs IH]; intros seen; cbn.
  - split; [constructor|]. intros x Hx. by apply elem_of_nil in Hx.
  - case_bool_decide as Hseen; [apply IH|].
    destruct (IH (Message.id m :: seen)) as [Hnd Hfresh]. cbn. split.
    + constructor; [|done]. intros Hin. apply Hfresh in Hin.
      apply Hin. by left.
    + intros x [->|Hx]%elem_of_cons; [done|].
      apply Hfresh in Hx. intros Hin. apply Hx. by right.
Qed.

Lemma first_arrivals_covers (seen : list string) (evs : list Message.t)
    (m : Message.t) :
  m ∈ evs ->
  Message.id m ∈ seen ∨ Message.id m ∈ message_ids (first_arrivals seen evs).
Proof.
  revert seen. induction evs as [|e evs IH]; intros seen Hin.
  - by apply elem_of_nil in Hin.
  - cbn. apply elem_of_cons in Hin as [->|Hin].
    + case_bool_decide; [by left|]. right. by left.
    + case_bool_decide as Hseen; [by apply IH|].
      destruct (IH (Message.id e :: seen) Hin) as [Hs|Hs].
      * apply elem_of_cons in Hs as [Hs|Hs]; [|by left].
        right. cbn. rewrite Hs. by left.
      * right. by right.
Qed.

Lemma first_arrivals_sublist (seen : list string) (evs : list Message.t) :
  sublist (first_arrivals seen evs) evs.
Proof.
  revert seen. induction evs as [|e evs IH]; intros seen; cbn.
  - constructor.
  - case_bool_decide; [apply sublist_cons|apply sublist_skip]; apply IH.
Qed.

(** *** A sequence of events on one channel *)

Lemma merged_id (evs : list Message.t) (ch : Channel.t) :
  Channel.id (merged evs ch) = Channel.id ch.
Proof.
  revert ch. induction evs as [|m evs IH]; intros ch; [done|].
  change (merged (m :: evs) ch) with (merged evs (mergeIntoChannel m ch)).
  by rewrite IH, mergeIntoChannel_id.
Qed.

Lemma merged_messages (evs : list Message.t) (ch : Channel.t) :
  messages_or_empty (merged evs ch)
  = messages_or_empty ch ++
      first_arrivals (message_ids (messages_or_empty ch))
        (addressed_to (Channel.id ch) evs).
Proof.
  revert ch. induction evs as [|m evs IH]; intros ch.
  - cbn. by rewrite app_nil_r.
  - change (merged (m :: evs) ch) with (merged evs (mergeIntoChannel m ch)).
    rewrite IH, mergeIntoChannel_id.
    destruct (mergeIntoChannel_messages m ch) as [Hadd Hkeep].
    destruct (decide (Channel.id ch = Message.channelId m)) as [Hid|Hid];
      [destruct (decide (Message.id m ∈ message_ids (messages_or_empty ch)))
         as [Hin|Hin]|].
    + rewrite Hkeep by tauto. unfold addressed_to.
      rewrite filter_cons_True by done. cbn.
      by rewrite bool_decide_eq_true_2.
    + rewrite Hadd by tauto. unfold addressed_to.
      rewrite filter_cons_True by done. cbn.
      rewrite bool_decide_eq_false_2 by done.
      rewrite <- app_assoc. cbn. do 2 f_equal.
      apply first_arrivals_ext. intros x. unfold message_ids.
      rewrite fmap_app, elem_of_app, elem_of_cons. cbn.
      rewrite list_elem_of_singleton. tauto.
    + rewrite Hkeep by tauto. unfold addressed_to.
      by rewrite filter_cons_False by done.
Qed.

(** C1.  One event: the callback leaves the channel at a position as it is
    unless the channel's id is the message's [channelId] and no message of
    its list has the message's id, and in that case it appends the message.
    A sequence of events: no channel appears or moves; the list of a channel
    becomes its old list followed by the first arrival of each new identifier
    addressed to it, in arrival order; it has no identifier twice if the old
    list had none twice, and it has the identifier of every message that
    arrived for the channel. *)
Theorem realtime_merge_dedups (st : AppState) (i j : nat) :
  (∀ m ch, channel_at st i j = Some ch ->
     ∃ ch1, channel_at (state (onMessage m st)) i j = Some ch1 ∧
       (Channel.id ch = Message.channelId m ∧
        Message.id m ∉ message_ids (messages_or_empty ch) ->
        messages_or_empty ch1 = messages_or_empty ch ++ [m]) ∧
       (¬ (Channel.id ch = Message.channelId m ∧
           Message.id m ∉ message_ids (messages_or_empty ch)) ->
        ch1 = ch)) ∧
  (∀ evs,
     (channel_at st i j = None -> channel_at (deliver evs st) i j = None) ∧
     (∀ ch, channel_at st i j = Some ch ->
        ∃ ch', channel_at (deliver evs st) i j = Some ch' ∧
          Channel.id ch' = Channel.id ch ∧
          messages_or_empty ch'
          = messages_or_empty ch ++
              first_arrivals (message_ids (messages_or_empty ch))
                (addressed_to (Channel.id ch) evs) ∧
          (NoDup (message_ids (messages_or_empty ch)) ->
           NoDup (message_ids (messages_or_empty ch'))) ∧
          (∀ m, m ∈ evs -> Message.channelId m = Channel.id ch ->
             Message.id m ∈ message_ids (messages_or_empty ch')))).
Proof.
  split.
  - intros m ch Hch. exists (mergeIntoChannel m ch).
    rewrite channel_at_onMessage, Hch. split; [done|].
    apply mergeIntoChannel_messages.
  - intros evs. rewrite channel_at_deliver. split; [by intros ->|].
    intros ch ->. exists (merged evs ch). split; [done|].
    split; [apply merged_id|]. split; [apply merged_messages|].
    rewrite merged_messages. unfold message_ids at 2 4. rewrite fmap_app.
    fold (message_ids (messages_or_empty ch)).
    set (seen := message_ids (messages_or_empty ch)).
    set (new := first_arrivals seen (addressed_to (Channel.id ch) evs)).
    fold (message_ids new).
    destruct (first_arrivals_fresh seen (addressed_to (Channel.id ch) evs))
      as [Hnd Hfresh]. fold new in Hnd, Hfresh.
    split.
    + intros Hold. apply NoDup_app. repeat split; [done| |done].
      intros x Hx Hx'. by apply Hfresh in Hx'.
    + intros m Hm Haddr. apply elem_of_app.
      apply (first_arrivals_covers seen (addressed_to (Channel.id ch) evs)).
      unfold addressed_to. by apply list_elem_of_filter.
Qed.

Lemma realtime_merge_dedups_witness :
  let st := Sample.home Sample.alice in
  let evs := [Sample.hi "m-1"; Sample.hi "m-2"; Sample.hi "m-1"] in
  ∃ ch', channel_at (deliver evs st) 0 0 = Some ch' ∧
         messages_or_empty ch' = [Sample.hi "m-1"; Sample.hi "m-2"].
Proof.
  destruct (proj2 (realtime_merge_dedups (Sample.home Sample.alice) 0 0)
              [Sample.hi "m-1"; Sample.hi "m-2"; Sample.hi "m-1"])
    as [_ H].
  destruct (H Sample.general eq_refl) as (ch' & Hat & _ & Hms & _).
  exists ch'. split; [exact Hat|]. rewrite Hms. reflexivity.
Defined.

(** ** C10: handlers without a user *)

(** C10.  When the render has no user, [handleSendMessage],
    [handleCreateServer] and [handleJoinServer] return at once: they complete
    normally, perform no effect at all (so no remote call), and leave every
    state cell as it is. *)
Theorem no_user_handlers_return (cl st : AppState) :
  user cl = None ->
  (∀ channelId content messageId isSystem uuid now sent,
     handleSendMessage cl channelId content messageId isSystem uuid now sent st
     = mkOutcome (Normal ()) st []) ∧
  (∀ defaultChannels defaultRoles name password uuid created fetched,
     handleCreateServer cl defaultChannels defaultRoles name password uuid
       created fetched st
     = mkOutcome (Normal ()) st []) ∧
  (∀ name password joined fetched,
     handleJoinServer cl name password joined fetched st
     = mkOutcome (Normal ()) st []).
Proof.
  intros Hu. unfold handleSendMessage, handleCreateServer, handleJoinServer.
  rewrite Hu. by repeat split.
Qed.

Lemma no_user_handlers_return_witness :
  user initialState = None ∧
  handleJoinServer initialState "vault" (Some "guess") (Some ()) None
    (Sample.home Sample.bob)
  = mkOutcome (Normal ()) (Sample.home Sample.bob) [].
Proof.
  split; [reflexivity|].
  apply (no_user_handlers_return initialState (Sample.home Sample.bob)).
  reflexivity.
Defined.

(** ** C5: sending a message *)

(** C5.  [handleSendMessage] never changes a state cell, whatever the remote
    write answers: no message is inserted locally, not even on success.  When
    there is a user and the write rejects, the handler has made the write and
    logged the failure, and it completes normally; when the write resolves,
    the write is its only effect. *)
Theorem send_message_leaves_state
    (cl st : AppState) (channelId content : string)
    (messageId : option string) (isSystem : option bool)
    (uuid : string) (now : Z) :
  (∀ sent,
     state (handleSendMessage cl channelId content messageId isSystem uuid
              now sent st) = st) ∧
  (∀ u, user cl = Some u ->
     ∃ m, Message.channelId m = channelId ∧ Message.content m = content ∧
          Message.senderId m = User.id u ∧
          handleSendMessage cl channelId content messageId isSystem uuid now
            None st
          = mkOutcome (Normal ()) st
              [CallSendMessage m; ConsoleError "Failed to send message:"] ∧
          handleSendMessage cl channelId content messageId isSystem uuid now
            (Some ()) st
          = mkOutcome (Normal ()) st [CallSendMessage m]).
Proof.
  split.
  - intros sent. unfold handleSendMessage.
    destruct (user cl); [|done]. by destruct sent.
  - intros u Hu. unfold handleSendMessage. rewrite Hu.
    eexists (Message.mk _ _ _ _ _ _ _ _). repeat split; reflexivity.
Qed.

Lemma send_message_leaves_state_witness :
  ∃ m,
    handleSendMessage (Sample.home Sample.alice) "c-general" "hi" None None
      "m-1" 7 None (Sample.home Sample.alice)
    = mkOutcome (Normal ()) (Sample.home Sample.alice)
        [CallSendMessage m; ConsoleError "Failed to send message:"] ∧
    Message.id m = "m-1" ∧
    channel_at (Sample.home Sample.alice) 0 0 = Some Sample.general.
Proof.
  destruct (send_message_leaves_state (Sample.home Sample.alice)
              (Sample.home Sample.alice) "c-general" "hi" None None "m-1" 7)
    as [_ H].
  destruct (H Sample.alice eq_refl) as (m & _ & _ & _ & Hrej & _).
  exists m. split; [exact Hrej|]. split; [|reflexivity].
  vm_compute in Hrej. by injection Hrej as <-.
Defined.

(** ** C4 and C9: the password check of [handleJoinServer] *)

(** C4.  When the server found by name has a non-empty password and the
    supplied one differs from it, [handleJoinServer] changes no state cell
    (server list and selection included) and makes no remote call: with a
    user its only effect is the alert, without one it has none. *)
Theorem join_wrong_password_rejected
    (cl st : AppState) (name : string) (password : option string)
    (joined : option unit) (fetched : option (list Server.t))
    (target : Server.t) (p : string) :
  find (λ s, Server.name s === name) (servers cl) = Some target ->
  Server.password target = Some p ->
  p ≠ "" ->
  password ≠ Some p ->
  let r := handleJoinServer cl name password joined fetched st in
  state r = st ∧
  completion r = Normal () ∧
  effects r = match user cl with
              | Some _ => [Alert "Incorrect password!"]
              | None => []
              end ∧
  Forall (λ e, is_remote_call e = false) (effects r).
Proof.
  intros Hfind Hpw Hp Hne.
  assert (Hcheck : truthy (Server.password target)
                   && negb (strict_eq (Server.password target) password)
                   = true).
  { rewrite Hpw. apply andb_true_iff. split.
    - cbn. apply negb_true_iff, String.eqb_neq, Hp.
    - apply negb_true_iff. apply not_true_is_false.
      rewrite strict_eq_spec. congruence. }
  unfold handleJoinServer. destruct (user cl); cbn zeta.
  - rewrite Hfind, Hcheck. repeat split. by repeat constructor.
  - repeat split. constructor.
Qed.

Lemma join_wrong_password_rejected_witness :
  let st := Sample.home Sample.bob in
  let r := handleJoinServer st "vault" (Some "guess") (Some ())
             (Some [Sample.vault]) st in
  state r = st ∧ effects r = [Alert "Incorrect password!"].
Proof.
  destruct (join_wrong_password_rejected (Sample.home Sample.bob)
              (Sample.home Sample.bob) "vault" (Some "guess") (Some ())
              (Some [Sample.vault]) Sample.vault "secret")
    as (Hs & _ & He & _); [reflexivity|reflexivity|discriminate|discriminate|].
  split; [exact Hs|exact He].
Defined.

(** C9.  When the server found by name has no password, or the empty one,
    the supplied password plays no part: the handler behaves the same for
    any two of them and never raises the password alert.  It writes the
    membership exactly when the user is not yet a member, and unless that
    write rejects it selects the target server (and its first channel when
    it has one). *)
Theorem join_without_password_proceeds
    (cl st : AppState) (u : User.t) (name : string)
    (joined : option unit) (fetched : option (list Server.t))
    (target : Server.t) :
  user cl = Some u ->
  find (λ s, Server.name s === name) (servers cl) = Some target ->
  Server.password target = None ∨ Server.password target = Some "" ->
  let is_member :=
    find (λ m, ServerMember.userId m === User.id u) (Server.members target) in
  ∀ password,
    let r := handleJoinServer cl name password joined fetched st in
    (∀ password',
       handleJoinServer cl name password' joined fetched st = r) ∧
    (Alert "Incorrect password!" ∉ effects r) ∧
    (is_member = None ->
       head (effects r) = Some (CallJoinServer (Server.id target) (User.id u))) ∧
    (is_member ≠ None -> effects r = []) ∧
    (is_member ≠ None ∨ joined = Some () ->
       activeServerId (state r) = Some (Server.id target) ∧
       ∀ c, head (Server.channels target) = Some c ->
            activeChannelId (state r) = Some (Channel.id c) ∧
            completion r = Normal ()).
Proof.
  intros Hu Hfind Hpw is_member password r.
  apply truthy_false in Hpw.
  subst r is_member. unfold handleJoinServer. rewrite Hu, Hfind, Hpw.
  cbn [andb].
  destruct (find _ (Server.members target)) as [m|].
  - split; [done|]. run_handler.
    destruct (Server.channels target) as [|c0 cs]; cbn; settle.
  - split; [done|]. unfold loadUserServers. run_handler.
    destruct joined as [[]|]; cbn; [|settle].
    destruct fetched as [[|first l]|]; cbn.
    + destruct (Server.channels target) as [|c0 cs]; cbn; settle.
    + destruct (truthy (activeServerId cl)); cbn;
        [|destruct (Server.channels first) as [|d0 ds]; cbn];
        (destruct (Server.channels target) as [|c0 cs]; cbn; settle).
    + destruct (Server.channels target) as [|c0 cs]; cbn; settle.
Qed.

Lemma join_without_password_proceeds_witness :
  let st := Sample.home Sample.bob in
  let r := handleJoinServer st "S" (Some "anything") (Some ()) None st in
  head (effects r) = Some (CallJoinServer "s-1" "u-bob") ∧
  activeServerId (state r) = Some "s-1".
Proof.
  destruct (join_without_password_proceeds (Sample.home Sample.bob)
              (Sample.home Sample.bob) Sample.bob "S" (Some ()) None Sample.S
              eq_refl eq_refl (or_introl eq_refl) (Some "anything"))
    as (_ & _ & Hw & _ & Hs).
  split; [exact (Hw eq_refl)|].
  exact (proj1 (Hs (or_intror eq_refl))).
Defined.

(** ** C8: updating a server *)




(** ** C6: voice and text display *)

Lemma find_first_with {A} (f : A -> bool) (P : A -> Prop) (l : list A)
    (x : A) :
  (∀ y, f y = true ↔ P y) -> first_with P l x -> find f l = Some x.
Proof.
  intros Hf (pre & post & -> & Hx & Hpre).
  induction pre as [|y pre IH]; cbn.
  - by rewrite (proj2 (Hf x) Hx).
  - destruct (f y) eqn:Hy.
    + apply Hf in Hy. destruct (Hpre y); [by left|done].
    + apply IH. intros z Hz. apply Hpre. by right.
Qed.

Lemma find_none_with {A} (f : A -> bool) (P : A -> Prop) (l : list A) :
  (∀ y, f y = true ↔ P y) -> (∀ y, y ∈ l -> ¬ P y) -> find f l = None.
Proof.
  intros Hf Hnone. induction l as [|y l IH]; [done|]. cbn.
  destruct (f y) eqn:Hy.
  - apply Hf in Hy. destruct (Hnone y); [by left|done].
  - apply IH. intros z Hz. apply Hnone. by right.
Qed.

Lemma type_is_text (c : Channel.t) :
  ChannelType_eqb (Channel.type c) text = true ↔ Channel.type c = text.
Proof. by destruct (Channel.type c). Qed.

Lemma id_is_active (a : string) (s : Server.t) :
  strict_eq (Some (Server.id s)) (Some a) = true ↔ Server.id s = a.
Proof. apply String.eqb_eq. Qed.

(** C6.  [onSelectChannel] makes the given id the active channel and sets
    [isVoiceConnected] to whether the first channel of the active server
    with that id is a voice channel (false when there is none).  [onLeave]
    always clears [isVoiceConnected]; when [active] is the first loaded
    server whose id is the active server id, it makes the first text channel
    of [active] the active channel, and leaves the active channel as it is
    when [active] has no text channel; it also leaves it when no loaded
    server has the active server id. *)
Theorem voice_display_follows_channel
    (cl st : AppState) (server : Server.t) (id : string) :
  (let r := onSelectChannel server id st in
   completion r = Normal () ∧
   activeChannelId (state r) = Some id ∧
   (isVoiceConnected (state r) = true ↔
      ∃ ch, find (λ c, Channel.id c === id) (Server.channels server) = Some ch ∧
            Channel.type ch = voice) ∧
   (∀ ch, first_with (λ c, Channel.id c = id) (Server.channels server) ch ->
      isVoiceConnected (state r) = ChannelType_eqb (Channel.type ch) voice) ∧
   ((∀ c, c ∈ Server.channels server -> Channel.id c ≠ id) ->
      isVoiceConnected (state r) = false)) ∧
  (let r := onLeave cl st in
   completion r = Normal () ∧
   isVoiceConnected (state r) = false ∧
   (∀ a active,
      activeServerId cl = Some a ->
      first_with (λ s, Server.id s = a) (servers cl) active ->
      (∀ txt,
         first_with (λ c, Channel.type c = text) (Server.channels active) txt ->
         activeChannelId (state r) = Some (Channel.id txt)) ∧
      ((∀ c, c ∈ Server.channels active -> Channel.type c ≠ text) ->
       activeChannelId (state r) = activeChannelId st)) ∧
   ((∀ s, s ∈ servers cl -> Some (Server.id s) ≠ activeServerId cl) ->
    activeChannelId (state r) = activeChannelId st)).
Proof.
  split.
  - assert (Hid : ∀ c : Channel.t, (Channel.id c === id) = true ↔ Channel.id c = id)
      by (intros c; apply String.eqb_eq).
    unfold onSelectChannel. run_handler.
    split; [by destruct (match find _ _ with Some _ => _ | None => _ end)|].
    split; [by destruct (match find _ _ with Some _ => _ | None => _ end)|].
    split; [|split].
    + destruct (find _ (Server.channels server)) as [ch|]; cbn.
      * destruct (Channel.type ch) eqn:Hty; cbn; split; try done.
        -- intros (ch' & [= <-] & Hv). congruence.
        -- intros _. by exists ch.
      * split; [done|]. intros (ch & [=] & _).
    + intros ch Hch. rewrite (find_first_with _ _ _ _ Hid Hch).
      by destruct (Channel.type ch).
    + intros Hnone. by rewrite (find_none_with _ _ _ Hid Hnone).
  - assert (Hr : onLeave cl st
                 = mkOutcome (Normal ())
                     (match activeServer cl ≫= λ s,
                              find (λ c, ChannelType_eqb (Channel.type c) text)
                                (Server.channels s) with
                      | Some t => with_activeChannelId (Some (Channel.id t))
                                    (with_isVoiceConnected false st)
                      | None => with_isVoiceConnected false st
                      end) []).
    { unfold onLeave.
      match goal with
      | |- context [@mbind option _ _ _ ?f ?x] =>
          destruct (@mbind option _ _ _ f x)
      end; by run_handler. }
    cbv zeta. rewrite Hr. cbn [completion state effects].
    split; [done|]. split.
    { by destruct (activeServer cl ≫= _). }
    split.
    + intros a active Ha Hactive.
      assert (activeServer cl = Some active) as ->.
      { unfold activeServer. rewrite Ha.
        exact (find_first_with _ _ _ _ (id_is_active a) Hactive). }
      cbn. split.
      * intros txt Htxt.
        by rewrite (find_first_with _ _ _ _ type_is_text Htxt).
      * intros Hnone.
        by rewrite (find_none_with _ _ _ type_is_text Hnone).
    + intros Hnone.
      assert (activeServer cl = None) as ->; [|done].
      unfold activeServer.
      apply (find_none_with _ (λ s, Some (Server.id s) = activeServerId cl)).
      * intros s. apply strict_eq_spec.
      * exact Hnone.
Qed.

(** Leaving the voice stage of [lounge], the second loaded server: the
    channel selected is the first text channel of [lounge], not one of the
    first loaded server. *)
Lemma voice_display_follows_channel_witness :
  let st := Sample.away Sample.alice in
  (first_with (λ s, Server.id s = "s-3") (servers st) Sample.lounge ∧
   first_with (λ c, Channel.type c = text) (Server.channels Sample.lounge)
     Sample.chat) ∧
  activeChannelId (state (onLeave st st)) = Some "c-chat" ∧
  isVoiceConnected (state (onLeave st st)) = false.
Proof.
  assert (Hserver : first_with (λ s, Server.id s = "s-3")
                      (servers (Sample.away Sample.alice)) Sample.lounge).
  { exists [Sample.S], []. split; [reflexivity|]. split; [reflexivity|].
    intros y Hy. apply list_elem_of_singleton in Hy. subst y. discriminate. }
  assert (Htext : first_with (λ c, Channel.type c = text)
                    (Server.channels Sample.lounge) Sample.chat).
  { exists [Sample.hall], []. split; [reflexivity|]. split; [reflexivity|].
    intros y Hy. apply list_elem_of_singleton in Hy. subst y. discriminate. }
  split; [by split|].
  destruct (voice_display_follows_channel (Sample.away Sample.alice)
              (Sample.away Sample.alice) Sample.lounge "c-hall")
    as [_ (_ & Hflag & Hleave & _)].
  split; [|exact Hflag].
  exact (proj1 (Hleave "s-3" Sample.lounge eq_refl Hserver) Sample.chat Htext).
Defined.

(** ** C7 and C2: the audio toggles *)

(** C7.  One click, from the render [cl]: [toggleMute] flips [isMuted] and
    leaves [isDeafened] as it is, both when it unmutes and when it mutes;
    [toggleDeafen] sets [isDeafened] and [isMuted] to true when it deafens
    and both to false when it undeafens. *)
Theorem toggle_policy (cl st : AppState) :
  (isMuted cl = true ->
     isMuted (state (toggleMute cl st)) = false ∧
     isDeafened (state (toggleMute cl st)) = isDeafened st) ∧
  (isMuted cl = false ->
     isMuted (state (toggleMute cl st)) = true ∧
     isDeafened (state (toggleMute cl st)) = isDeafened st) ∧
  (isDeafened cl = false ->
     isDeafened (state (toggleDeafen cl st)) = true ∧
     isMuted (state (toggleDeafen cl st)) = true) ∧
  (isDeafened cl = true ->
     isDeafened (state (toggleDeafen cl st)) = false ∧
     isMuted (state (toggleDeafen cl st)) = false).
Proof.
  unfold toggleMute, toggleDeafen.
  destruct (isMuted cl), (isDeafened cl); repeat split; done.
Qed.

Lemma toggle_policy_witness :
  let deaf := click ClickDeafen initialState in
  (isDeafened deaf = true ∧ isMuted deaf = true) ∧
  (isMuted (click ClickMute deaf) = false ∧
   isDeafened (click ClickMute deaf) = true).
Proof.
  split.
  - exact (proj1 (proj2 (proj2 (toggle_policy initialState initialState)))
             eq_refl).
  - pose (deaf := click ClickDeafen initialState).
    destruct (proj1 (toggle_policy deaf deaf) eq_refl) as [Hm Hd].
    split; [exact Hm|exact Hd].
Defined.

(** A click never throws and touches nothing but the two flags. *)
Lemma click_frame (t : Toggle) (st : AppState) :
  servers (click t st) = servers st ∧
  activeServerId (click t st) = activeServerId st ∧
  activeChannelId (click t st) = activeChannelId st ∧
  user (click t st) = user st.
Proof.
  destruct t; cbn; unfold toggleMute, toggleDeafen;
    [destruct (isMuted st)|destruct (isDeafened st)]; done.
Qed.

(** The second half of C2 holds: right after a click that turns deafen
    off, the microphone is unmuted. *)
Lemma undeafen_unmutes (st : AppState) :
  isDeafened st = true ->
  isDeafened (click ClickDeafen st) = false ∧
  isMuted (click ClickDeafen st) = false.
Proof. cbn. unfold toggleDeafen. by intros ->. Qed.

(** The comment of line 223 ("if we are unmuting, ensure deafen is off")
    describes a [toggleMute] that would keep "deafened implies muted"; the
    body only flips [isMuted]. *)
Lemma unmute_keeps_deafened (st : AppState) :
  isMuted st = true ->
  isDeafened (click ClickMute st) = isDeafened st.
Proof. cbn. unfold toggleMute. by intros ->. Qed.

(** C2.  The code at the failing input: from the initial flags, deafen and
    then unmute.  The result is deafened and not muted, so "isDeafened
    implies isMuted" does not hold after this sequence of clicks. *)
Theorem deafen_then_unmute_breaks_invariant :
  let st := clicks [ClickDeafen; ClickMute] initialState in
  isDeafened st = true ∧ isMuted st = false ∧ ¬ deafened_implies_muted st.
Proof.
  cbn. repeat split. intros H. specialize (H eq_refl). discriminate H.
Qed.

(** ** C3: the selection refers to loaded items *)

Lemma find_elem_of {A} (f : A -> bool) (l : list A) (x : A) :
  find f l = Some x -> x ∈ l ∧ f x = true.
Proof.
  intros H. apply find_some in H as [Hin Hf]. split; [|done].
  by apply list_elem_of_In.
Qed.

Lemma server_id_loaded (l : list Server.t) (s : Server.t) :
  s ∈ l -> Server.id s ∈ server_ids l.
Proof. intros Hs. by apply list_elem_of_fmap_2. Qed.

Lemma channel_id_loaded (l : list Server.t) (s : Server.t) (c : Channel.t) :
  s ∈ l -> c ∈ Server.channels s -> Channel.id c ∈ channel_ids l.
Proof.
  intros Hs Hc. apply list_elem_of_bind. exists s. split; [|done].
  by apply list_elem_of_fmap_2.
Qed.


(** What [loadUserServers] leaves behind: it never throws; after a rejected
    fetch the state is the one before; after a resolved fetch the list is the
    fetched one, and each selected id is the old one or one of the fetched
    list.  From a render without a truthy active server, and with a fetched
    list that is not empty, the server is taken from the fetched list. *)
Lemma loadUserServers_spec (cl st : AppState) (userId : string)
    (fetched : option (list Server.t)) :
  let r := loadUserServers cl userId fetched st in
  completion r = Normal () ∧
  user (state r) = user st ∧
  isLoading (state r) = isLoading st ∧
  match fetched with
  | None => state r = st
  | Some l =>
      servers (state r) = l ∧
      (activeServerId (state r) = activeServerId st ∨
       truthy (activeServerId cl) = false ∧
       absent_or_in (activeServerId (state r)) (server_ids l)) ∧
      (activeChannelId (state r) = activeChannelId st ∨
       truthy (activeServerId cl) = false ∧
       absent_or_in (activeChannelId (state r)) (channel_ids l))
  end.
Proof.
  unfold loadUserServers. run_handler.
  destruct fetched as [[|s0 l]|]; cbn;
    [repeat split; try done; by left| |done].
  destruct (truthy (activeServerId cl)) eqn:Htruthy; cbn;
    [repeat split; try done; by left|].
  destruct (Server.channels s0) as [|c cs] eqn:Hcs; cbn.
  - repeat split; try done; [|by left].
    right. split; [done|]. cbn. by left.
  - repeat split; try done; right; (split; [done|]); cbn; by left.
Qed.

#[local] Arguments loadUserServers : simpl never.

(** *** The pieces are the handlers *)

(** Computes a handler given in pieces. *)
Ltac run_pieces :=
  repeat progress
    (unfold loadStarted, loadSettled, selectServerAndFirstChannel;
     run_handler).

Lemma loadUserServers_in_pieces (cl st : AppState) (userId : string)
    (fetched : option (list Server.t)) :
  loadUserServers cl userId fetched st
  = (loadStarted userId ;; loadSettled cl fetched) st.
Proof.
  unfold loadUserServers, loadStarted, loadSettled. run_handler.
  destruct fetched as [[|s0 l]|]; cbn; [done| |done].
  destruct (truthy (activeServerId cl)); cbn; [done|].
  by destruct (Server.channels s0).
Qed.

Lemma mount_in_pieces (cl st : AppState) (stored : option User.t)
    (fetched : option (list Server.t)) :
  let whole := mount cl stored fetched st in
  let pieces := (tasks ← mountStarted cl stored;
                 settle_in_turn [Fetched fetched] tasks) st in
  state whole = state pieces ∧ effects whole = effects pieces ∧
  completion whole = completion pieces.
Proof.
  unfold mount, mountStarted, loadUserServers.
  destruct stored as [parsedUser|]; run_pieces; [|done].
  destruct fetched as [[|s0 l]|]; cbn; [done| |done].
  destruct (truthy (activeServerId cl)); cbn; [done|].
  by destruct (Server.channels s0).
Qed.

Lemma handleLogin_in_pieces (cl st : AppState) (newUser : User.t)
    (upserted : option unit) (fetched : option (list Server.t)) :
  handleLogin cl newUser upserted fetched st
  = (tasks ← loginStarted cl newUser;
     settle_in_turn [Written upserted; Fetched fetched] tasks) st.
Proof.
  unfold handleLogin, loginStarted, loadUserServers. run_pieces.
  destruct upserted as [[]|]; run_pieces; [|done].
  destruct fetched as [[|s0 l]|]; cbn; [done| |done].
  destruct (truthy (activeServerId cl)); cbn; [done|].
  by destruct (Server.channels s0).
Qed.

Lemma handleCreateServer_in_pieces (cl st : AppState)
    (defaultChannels : list Channel.t) (defaultRoles : list Role.t)
    (name : string) (password : option string) (uuid : nat -> string)
    (created : option unit) (fetched : option (list Server.t)) :
  handleCreateServer cl defaultChannels defaultRoles name password uuid
    created fetched st
  = (tasks ← createStarted cl defaultChannels defaultRoles name password uuid;
     settle_in_turn [Written created; Fetched fetched] tasks) st.
Proof.
  unfold handleCreateServer, createStarted, newServerOf, loadUserServers.
  destruct (user cl) as [u|]; [|done]. run_pieces.
  destruct created as [[]|]; run_pieces; [|done].
  destruct fetched as [[|s0 l]|]; cbn;
    [| destruct (truthy (activeServerId cl)); cbn;
       [|destruct (Server.channels s0); cbn] |];
    by destruct defaultChannels.
Qed.

Lemma handleJoinServer_in_pieces (cl st : AppState) (name : string)
    (password : option string) (joined : option unit)
    (fetched : option (list Server.t)) :
  handleJoinServer cl name password joined fetched st
  = (tasks ← joinStarted cl name password;
     settle_in_turn [Written joined; Fetched fetched] tasks) st.
Proof.
  unfold handleJoinServer, joinStarted, loadUserServers.
  destruct (user cl) as [u|]; [|done].
  destruct (find _ (servers cl)) as [target|]; [|done].
  destruct (_ && _); [done|].
  destruct (find _ (Server.members target)); run_pieces.
  - by destruct (Server.channels target).
  - destruct joined as [[]|]; run_pieces; [|done].
    destruct fetched as [[|s0 l]|]; cbn;
      [| destruct (truthy (activeServerId cl)); cbn;
         [|destruct (Server.channels s0); cbn] |];
      by destruct (Server.channels target).
Qed.

(** *** What a settling fetch leaves *)



(** *** One step *)

Section Steps.

Variable defaultChannels : list Channel.t.
Variable defaultRoles : list Role.t.





End Steps.

(** *** Sessions *)





(** The model reaches the worlds in which calls overtake one another: when
    the fetch of the mount effect settles after the create, with the empty
    list, the new server stays selected and is not loaded.  That last step
    is not admissible. *)
Lemma late_first_fetch_dangles :
  match steps Sample.defaultChannels [] Sample.overtaken
          (mounted (Some Sample.alice)) with
  | Some w =>
      servers (current w) = [] ∧
      activeServerId (current w) = Some "s-new" ∧
      ¬ selection_valid (current w)
  | None => False
  end.
Proof.
  vm_compute steps. repeat split. intros [Hs _]. cbn in Hs.
  by apply elem_of_nil in Hs.
Qed.

(** * Further properties of the handlers *)

(** ** Loading the server list *)

(** X1.  [loadUserServers] always completes normally; its first effect is the
    fetch and it never writes to the backend.  After a rejected fetch the
    state is untouched and the failure is logged. *)
Theorem load_never_throws (cl st : AppState) (userId : string)
    (fetched : option (list Server.t)) :
  let r := loadUserServers cl userId fetched st in
  completion r = Normal () ∧
  head (effects r) = Some (CallGetServersForUser userId) ∧
  Forall (λ e, is_remote_write e = false) (effects r) ∧
  (fetched = None ->
   r = mkOutcome (Normal ()) st
         [CallGetServersForUser userId;
          ConsoleError "Failed to load servers:"]).
Proof.
  unfold loadUserServers. run_handler.
  destruct fetched as [[|s0 l]|]; cbn;
    [by repeat constructor| |by repeat constructor].
  destruct (truthy (activeServerId cl)); cbn; [by repeat constructor|].
  destruct (Server.channels s0); cbn; by repeat constructor.
Qed.

Lemma load_never_throws_witness :
  loadUserServers initialState "u-alice" None (Sample.home Sample.alice)
  = mkOutcome (Normal ()) (Sample.home Sample.alice)
      [CallGetServersForUser "u-alice";
       ConsoleError "Failed to load servers:"].
Proof.
  exact (proj2 (proj2 (proj2
           (load_never_throws initialState (Sample.home Sample.alice)
              "u-alice" None))) eq_refl).
Defined.

(** X2.  When the render already has an active server, a resolved fetch only
    replaces the list: the selection is kept as it is, also when the new
    list is empty or no longer has the selected server. *)
Theorem load_keeps_active_selection (cl st : AppState) (userId : string)
    (l : list Server.t) :
  truthy (activeServerId cl) = true ->
  loadUserServers cl userId (Some l) st
  = mkOutcome (Normal ()) (with_servers l st) [CallGetServersForUser userId].
Proof.
  intros Hactive. unfold loadUserServers. run_handler.
  destruct l as [|s0 l]; cbn; [done|]. by rewrite Hactive.
Qed.

Lemma load_keeps_active_selection_witness :
  let st := Sample.home Sample.alice in
  let r := loadUserServers st "u-alice" (Some []) st in
  servers (state r) = [] ∧ activeServerId (state r) = Some "s-1" ∧
  activeChannelId (state r) = Some "c-general".
Proof.
  cbv zeta.
  rewrite (load_keeps_active_selection (Sample.home Sample.alice)
             (Sample.home Sample.alice) "u-alice" [] eq_refl).
  repeat split.
Defined.

(** X3.  When the render has no active server (absent or the empty string), a
    resolved fetch selects the first server of the list and its first
    channel.  With an empty list nothing is selected; when the first server
    has no channel, the server is selected, the channel is left as it was
    and the [TypeError] is logged as a failed load. *)
Theorem load_selects_first (cl st : AppState) (userId : string) :
  truthy (activeServerId cl) = false ->
  loadUserServers cl userId (Some []) st
  = mkOutcome (Normal ()) (with_servers [] st)
      [CallGetServersForUser userId] ∧
  ∀ s0 l,
    (∀ c cs, Server.channels s0 = c :: cs ->
       loadUserServers cl userId (Some (s0 :: l)) st
       = mkOutcome (Normal ())
           (with_activeChannelId (Some (Channel.id c))
              (with_activeServerId (Some (Server.id s0))
                 (with_servers (s0 :: l) st)))
           [CallGetServersForUser userId]) ∧
    (Server.channels s0 = [] ->
       loadUserServers cl userId (Some (s0 :: l)) st
       = mkOutcome (Normal ())
           (with_activeServerId (Some (Server.id s0))
              (with_servers (s0 :: l) st))
           [CallGetServersForUser userId;
            ConsoleError "Failed to load servers:"]).
Proof.
  intros Hnone. split; [done|]. intros s0 l.
  unfold loadUserServers. run_handler. rewrite Hnone. cbn.
  split.
  - by intros c cs ->.
  - by intros ->.
Qed.

Lemma load_selects_first_witness :
  let r := loadUserServers initialState "u-alice"
             (Some [Sample.S; Sample.vault]) initialState in
  activeServerId (state r) = Some "s-1" ∧
  activeChannelId (state r) = Some "c-general" ∧
  effects r = [CallGetServersForUser "u-alice"].
Proof.
  destruct (load_selects_first initialState initialState "u-alice" eq_refl)
    as [_ H].
  cbv zeta.
  rewrite (proj1 (H Sample.S [Sample.vault]) Sample.general [Sample.stage]
             eq_refl).
  repeat split.
Defined.

(** ** The mount effect and login *)

(** X4.  Without a stored identity the mount effect makes no call and only ends
    the loading phase, which leaves the login page.  With one, the user is
    set, exactly one fetch is made, for that user, and the loading phase
    ends whatever the fetch answers: the main screen is shown. *)
Theorem mount_ends_loading (cl st : AppState)
    (fetched : option (list Server.t)) :
  mount cl None fetched st = mkOutcome (Normal ()) (with_isLoading false st) [] ∧
  ∀ parsedUser,
    let r := mount cl (Some parsedUser) fetched st in
    completion r = Normal () ∧
    user (state r) = Some parsedUser ∧
    isLoading (state r) = false ∧
    screen (state r) = MainScreen ∧
    filter (λ e, is_remote_call e = true) (effects r)
    = [CallGetServersForUser (User.id parsedUser)].
Proof.
  split; [done|]. intros parsedUser. unfold mount, screen, loadUserServers.
  run_handler.
  destruct fetched as [[|s0 l]|]; cbn; [done| |done].
  destruct (truthy (activeServerId cl)); cbn; [done|].
  by destruct (Server.channels s0).
Qed.

(** X5.  A login whose upsert rejects changes nothing: the user stays absent,
    nothing is stored locally, no list is fetched; the failure is logged and
    alerted.  A login whose upsert resolves sets the user, stores it under
    [discordia_user] and then fetches the list of that user; it completes
    normally and alerts nothing whatever the fetch answers (a failed fetch
    is only logged), and from the login page it leads to the main screen. *)
Theorem login_sets_user_when_upserted (cl st : AppState) (newUser : User.t)
    (fetched : option (list Server.t)) :
  handleLogin cl newUser None fetched st
  = mkOutcome (Normal ()) st
      [CallUpsertUser newUser; ConsoleError "Failed to login:";
       Alert "Login failed. Please try again."] ∧
  let r := handleLogin cl newUser (Some ()) fetched st in
  completion r = Normal () ∧
  user (state r) = Some newUser ∧
  firstn 3 (effects r)
  = [CallUpsertUser newUser; LocalStorageSetItem "discordia_user" newUser;
     CallGetServersForUser (User.id newUser)] ∧
  Forall (λ e, ∀ text, e ≠ Alert text) (effects r) ∧
  (isLoading st = false -> screen (state r) = MainScreen) ∧
  (fetched = None ->
   state r = with_user (Some newUser) st ∧
   effects r
   = [CallUpsertUser newUser; LocalStorageSetItem "discordia_user" newUser;
      CallGetServersForUser (User.id newUser);
      ConsoleError "Failed to load servers:"]).
Proof.
  split; [reflexivity|].
  unfold handleLogin, screen, loadUserServers. run_handler.
  destruct fetched as [[|s0 l]|]; cbn;
    [| destruct (truthy (activeServerId cl)); cbn;
       [|destruct (Server.channels s0); cbn] |];
    (repeat split; try done; try (by intros ->);
     repeat constructor; done).
Qed.

Lemma login_sets_user_when_upserted_witness :
  let st := booted None None in
  screen st = LoginScreen ∧
  screen (state (handleLogin st Sample.alice (Some ())
                   (Some [Sample.S]) st)) = MainScreen.
Proof.
  split; [reflexivity|].
  exact (proj1 (proj2 (proj2 (proj2 (proj2 (proj2
           (login_sets_user_when_upserted (booted None None)
              (booted None None) Sample.alice (Some [Sample.S]))))))) eq_refl).
Defined.

(** ** Sending messages *)

(** X6.  The identifier of a sent message is the one supplied by the caller when
    that is a non-empty string, and the fresh uuid otherwise (absent or
    empty); the system flag is false unless supplied; the sender fields are
    those of the user and the timestamp is the clock. *)
Theorem send_message_record (cl st : AppState) (u : User.t)
    (channelId content : string) (messageId : option string)
    (isSystem : option bool) (uuid : string) (now : Z) (sent : option unit) :
  user cl = Some u ->
  ∃ m, head (effects (handleSendMessage cl channelId content messageId
                        isSystem uuid now sent st))
       = Some (CallSendMessage m) ∧
       (messageId = None ∨ messageId = Some "" -> Message.id m = uuid) ∧
       (∀ s, messageId = Some s -> s ≠ "" -> Message.id m = s) ∧
       Message.isSystem m = default false isSystem ∧
       Message.timestamp m = now ∧
       (Message.senderId m, Message.senderName m, Message.senderAvatar m)
       = (User.id u, User.username u, User.avatar u).
Proof.
  intros Hu. unfold handleSendMessage. rewrite Hu.
  eexists (Message.mk _ _ _ _ _ _ _ _). split.
  - by destruct sent.
  - cbn. repeat split.
    + intros [->| ->]; done.
    + intros s -> Hs. cbn. by rewrite (proj2 (String.eqb_neq _ _) Hs).
Qed.

Lemma send_message_record_witness :
  ∃ m, head (effects (handleSendMessage (Sample.home Sample.alice)
                        "c-general" "hi" (Some "") None "m-9" 5 (Some ())
                        (Sample.home Sample.alice)))
       = Some (CallSendMessage m) ∧ Message.id m = "m-9".
Proof.
  destruct (send_message_record (Sample.home Sample.alice)
              (Sample.home Sample.alice) Sample.alice "c-general" "hi"
              (Some "") None "m-9" 5 (Some ()) eq_refl)
    as (m & Hm & Hid & _).
  exists m. split; [exact Hm|]. apply Hid. by right.
Defined.

(** X7.  A bot response is sent through [handleSendMessage]: the message that
    reaches the backend has the id made for the bot message and the system
    flag, but its sender is the logged-in user, not the bot, and its
    timestamp is read anew.  Without a user the response is dropped without
    any effect. *)
Theorem gemini_response_sent_as_user (cl st : AppState)
    (channelId content botId : string) (botNow : Z) (uuid : string)
    (now : Z) (sent : option unit) :
  (user cl = None ->
   handleGeminiResponse cl channelId content botId botNow uuid now sent st
   = mkOutcome (Normal ()) st []) ∧
  (∀ u, user cl = Some u -> botId ≠ "" ->
     handleGeminiResponse cl channelId content botId botNow uuid now sent st
     = mkOutcome (Normal ()) st
         (CallSendMessage
            (Message.mk botId channelId content (User.id u) (User.username u)
               (User.avatar u) now true)
          :: match sent with
             | Some _ => []
             | None => [ConsoleError "Failed to send message:"]
             end)).
Proof.
  unfold handleGeminiResponse, handleSendMessage. split.
  - intros Hu. by rewrite Hu.
  - intros u Hu Hid. rewrite Hu. cbn.
    rewrite (proj2 (String.eqb_neq _ _) Hid). by destruct sent as [[]|].
Qed.

Lemma gemini_response_sent_as_user_witness :
  effects (handleGeminiResponse (Sample.home Sample.alice) "c-general"
             "hello" "m-bot" 1 "m-other" 2 (Some ())
             (Sample.home Sample.alice))
  = [CallSendMessage
       (Message.mk "m-bot" "c-general" "hello" "u-alice" "alice"
          (Some "alice.png") 2 true)].
Proof.
  rewrite (proj2 (gemini_response_sent_as_user (Sample.home Sample.alice)
                    (Sample.home Sample.alice) "c-general" "hello" "m-bot" 1
                    "m-other" 2 (Some ())) Sample.alice eq_refl).
  - reflexivity.
  - discriminate.
Defined.

Lemma first_arrivals_seen (seen : list string) (evs : list Message.t) :
  (∀ m, m ∈ evs -> Message.id m ∈ seen) -> first_arrivals seen evs = [].
Proof.
  induction evs as [|m evs IH]; intros Hseen; [done|].
  cbn. rewrite bool_decide_eq_true_2 by (apply Hseen; by left).
  apply IH. intros x Hx. apply Hseen. by right.
Qed.

(** X8.  Send and echo.  The message written by [handleSendMessage], once the
    realtime bridge delivers it, is the new last message of the loaded
    channel it is addressed to, provided its id is new there; delivering
    the echo again any number of times adds nothing. *)
Theorem sent_message_echo_appears_once (cl st st' : AppState) (u : User.t)
    (channelId content : string) (messageId : option string)
    (isSystem : option bool) (uuid : string) (now : Z) (sent : option unit)
    (i j : nat) (ch : Channel.t) (m : Message.t) :
  user cl = Some u ->
  head (effects (handleSendMessage cl channelId content messageId isSystem
                   uuid now sent st)) = Some (CallSendMessage m) ->
  channel_at st' i j = Some ch ->
  Channel.id ch = channelId ->
  Message.id m ∉ message_ids (messages_or_empty ch) ->
  ∀ k, messages_or_empty <$> channel_at (deliver (replicate (S k) m) st') i j
       = Some (messages_or_empty ch ++ [m]).
Proof.
  intros Hu Hsent Hch Hid Hnew k.
  assert (Haddr : Message.channelId m = Channel.id ch).
  { unfold handleSendMessage in Hsent. rewrite Hu in Hsent.
    destruct sent; cbn in Hsent; injection Hsent as <-; done. }
  rewrite channel_at_deliver, Hch.
  change (Some (messages_or_empty (merged (replicate (S k) m) ch))
          = Some (messages_or_empty ch ++ [m])).
  f_equal. rewrite merged_messages. f_equal. unfold addressed_to.
  change (replicate (S k) m) with (m :: replicate k m).
  rewrite filter_cons_True by done. cbn.
  rewrite bool_decide_eq_false_2 by done. f_equal.
  apply first_arrivals_seen. intros x Hx.
  apply list_elem_of_filter in Hx as [_ Hx].
  apply elem_of_replicate in Hx as [-> _]. by left.
Qed.

Lemma sent_message_echo_appears_once_witness :
  let st := Sample.home Sample.alice in
  let m := Message.mk "m-1" "c-general" "hi" "u-alice" "alice"
             (Some "alice.png") 7 false in
  messages_or_empty <$> channel_at (deliver [m; m; m] st) 0 0 = Some [m].
Proof.
  exact (sent_message_echo_appears_once (Sample.home Sample.alice)
           (Sample.home Sample.alice) (Sample.home Sample.alice)
           Sample.alice "c-general" "hi" None None "m-1" 7 (Some ()) 0 0
           Sample.general _ eq_refl eq_refl eq_refl eq_refl
           (not_elem_of_nil _) 2).
Defined.

(** ** Creating a server *)

(** X9.  The record [handleCreateServer] sends: the caller owns it and is its
    only member, with the admin role; it has one channel per default
    channel, in order, with the default's name and type, a fresh id and an
    empty message list. *)
Theorem created_server_record (cl st : AppState) (u : User.t)
    (defaultChannels : list Channel.t) (defaultRoles : list Role.t)
    (name : string) (password : option string) (uuid : nat -> string)
    (created : option unit) (fetched : option (list Server.t)) :
  user cl = Some u ->
  ∃ srv,
    head (effects (handleCreateServer cl defaultChannels defaultRoles name
                     password uuid created fetched st))
    = Some (CallCreateServer srv (User.id u)) ∧
    Server.id srv = uuid 0%nat ∧
    Server.name srv = name ∧
    Server.password srv = password ∧
    Server.ownerId srv = User.id u ∧
    Server.roles srv = defaultRoles ∧
    Server.members srv
    = [ServerMember.mk (User.id u) (User.username u)
         (default "" (User.avatar u)) ["r-admin"]] ∧
    length (Server.channels srv) = length defaultChannels ∧
    ∀ k, Server.channels srv !! k
         = (λ d, Channel.mk (uuid (S k)) (Channel.name d) (Channel.type d)
                   (Some [])) <$> defaultChannels !! k.
Proof.
  intros Hu. unfold handleCreateServer. rewrite Hu.
  eexists (Server.mk _ _ _ _ _ _ _). split.
  - run_handler. destruct created as [[]|]; cbn; [|done].
    destruct (loadUserServers cl (User.id u) fetched st)
      as [[[]|e] s1 eff1]; cbn; [|done].
    by destruct defaultChannels.
  - cbn. repeat split.
    + apply length_imap.
    + intros k. apply list_lookup_imap.
Qed.

Lemma created_server_record_witness :
  ∃ srv,
    head (effects (handleCreateServer (Sample.home Sample.bob)
                     Sample.defaultChannels [] "new" None Sample.uuids
                     (Some ()) None (Sample.home Sample.bob)))
    = Some (CallCreateServer srv "u-bob") ∧
    Server.channels srv
    = [Channel.mk "c-new-0" "general" text (Some []);
       Channel.mk "c-new" "General" voice (Some [])].
Proof.
  destruct (created_server_record (Sample.home Sample.bob)
              (Sample.home Sample.bob) Sample.bob Sample.defaultChannels []
              "new" None Sample.uuids (Some ()) None eq_refl)
    as (srv & Hcall & _).
  exists srv. split; [exact Hcall|].
  vm_compute in Hcall. by injection Hcall as <-.
Defined.

(** X10.  When the remote write of [handleCreateServer] rejects, nothing else
    happens: no list is fetched, the state is untouched, the failure is
    logged and alerted.  When it resolves and there is a default channel,
    the handler completes normally without an alert and selects the new
    server and its first channel; the list it shows is the fetched one when
    the fetch resolves and the old one otherwise: the new server is never
    inserted locally. *)
Theorem create_server_outcome (cl st : AppState) (u : User.t)
    (defaultChannels : list Channel.t) (defaultRoles : list Role.t)
    (name : string) (password : option string) (uuid : nat -> string)
    (fetched : option (list Server.t)) :
  user cl = Some u ->
  (let r := handleCreateServer cl defaultChannels defaultRoles name password
              uuid None fetched st in
   completion r = Normal () ∧ state r = st ∧
   tail (effects r)
   = [ConsoleError "Failed to create server:";
      Alert "Failed to create server. Please try again."]) ∧
  (defaultChannels ≠ [] ->
   let r := handleCreateServer cl defaultChannels defaultRoles name password
              uuid (Some ()) fetched st in
   completion r = Normal () ∧
   activeServerId (state r) = Some (uuid 0%nat) ∧
   activeChannelId (state r) = Some (uuid 1%nat) ∧
   servers (state r) = default (servers st) fetched ∧
   Forall (λ e, ∀ text, e ≠ Alert text) (effects r)).
Proof.
  intros Hu. unfold handleCreateServer. rewrite Hu. split.
  - by run_handler.
  - intros Hdefaults. destruct defaultChannels as [|d ds]; [done|].
    unfold loadUserServers. run_handler.
    destruct fetched as [[|s0 l]|]; cbn;
      [| destruct (truthy (activeServerId cl)); cbn;
         [|destruct (Server.channels s0); cbn] |];
      (repeat split; try done; repeat constructor; done).
Qed.

Lemma create_server_outcome_witness :
  let st := Sample.home Sample.bob in
  let r := handleCreateServer st Sample.defaultChannels [] "new" None
             Sample.uuids (Some ()) (Some [Sample.S]) st in
  activeServerId (state r) = Some "s-new" ∧
  activeChannelId (state r) = Some "c-new-0" ∧
  servers (state r) = [Sample.S].
Proof.
  destruct (proj2 (create_server_outcome (Sample.home Sample.bob)
                     (Sample.home Sample.bob) Sample.bob
                     Sample.defaultChannels [] "new" None Sample.uuids
                     (Some [Sample.S]) eq_refl))
    as (_ & Hs & Hc & Hl & _); [discriminate|].
  split; [exact Hs|]. split; [exact Hc|exact Hl].
Defined.

(** ** Joining a server *)

(** X11.  With a user and a server found under the name, the password alert is
    raised exactly when the server has a non-empty password and the supplied
    value is not that password.  In particular the right password, and any
    value for a server without password, get past the check. *)
Theorem join_password_alert_iff (cl st : AppState) (u : User.t)
    (name : string) (password : option string) (joined : option unit)
    (fetched : option (list Server.t)) (target : Server.t) :
  user cl = Some u ->
  find (λ s, Server.name s === name) (servers cl) = Some target ->
  Alert "Incorrect password!"
    ∈ effects (handleJoinServer cl name password joined fetched st)
  ↔ truthy (Server.password target) = true ∧ Server.password target ≠ password.
Proof.
  intros Hu Hfind. unfold handleJoinServer. rewrite Hu, Hfind.
  destruct (truthy (Server.password target)) eqn:Htruthy; cbn [andb].
  - destruct (strict_eq (Server.password target) password) eqn:Heq; cbn [negb].
    + apply strict_eq_spec in Heq. split; [|by intros [_ ?]].
      intros Hin. exfalso. revert Hin.
      destruct (find _ (Server.members target));
        unfold loadUserServers; run_handler.
      * destruct (Server.channels target); cbn; not_among.
      * destruct joined as [[]|]; cbn; [|not_among].
        destruct fetched as [[|s0 l]|]; cbn;
          [| destruct (truthy (activeServerId cl)); cbn;
             [|destruct (Server.channels s0); cbn] |];
          destruct (Server.channels target); cbn; not_among.
    + split; [|intros _; by left]. intros _. split; [done|].
      intros Hpw. apply strict_eq_spec in Hpw. congruence.
  - split; [|by intros [? _]]. intros Hin. exfalso. revert Hin.
    destruct (find _ (Server.members target));
      unfold loadUserServers; run_handler.
    + destruct (Server.channels target); cbn; not_among.
    + destruct joined as [[]|]; cbn; [|not_among].
      destruct fetched as [[|s0 l]|]; cbn;
        [| destruct (truthy (activeServerId cl)); cbn;
           [|destruct (Server.channels s0); cbn] |];
        destruct (Server.channels target); cbn; not_among.
Qed.

Lemma join_password_alert_iff_witness :
  let st := Sample.home Sample.bob in
  Alert "Incorrect password!"
    ∉ effects (handleJoinServer st "vault" (Some "secret") (Some ()) None st).
Proof.
  intros st Hin.
  apply (join_password_alert_iff (Sample.home Sample.bob)
           (Sample.home Sample.bob) Sample.bob "vault" (Some "secret")
           (Some ()) None Sample.vault eq_refl eq_refl) in Hin.
  destruct Hin as [_ Hne]. by apply Hne.
Defined.

(** X12.  Two ways a join ends without touching the state.  A name that no loaded
    server has is answered by an alert alone: the lookup is local and no
    backend call is made.  A membership write that rejects is logged and
    alerted; no list is fetched and nothing is selected. *)
Theorem join_failures_leave_state (cl st : AppState) (u : User.t)
    (name : string) (password : option string)
    (fetched : option (list Server.t)) :
  user cl = Some u ->
  (find (λ s, Server.name s === name) (servers cl) = None ->
   ∀ joined,
     handleJoinServer cl name password joined fetched st
     = mkOutcome (Normal ()) st [Alert "Server not found."]) ∧
  (∀ target,
     find (λ s, Server.name s === name) (servers cl) = Some target ->
     truthy (Server.password target) = false
     ∨ Server.password target = password ->
     find (λ m, ServerMember.userId m === User.id u) (Server.members target)
     = None ->
     handleJoinServer cl name password None fetched st
     = mkOutcome (Normal ()) st
         [CallJoinServer (Server.id target) (User.id u);
          ConsoleError "Failed to join server:";
          Alert "Failed to join server. Please try again."]).
Proof.
  intros Hu. unfold handleJoinServer. rewrite Hu. split.
  - by intros ->.
  - intros target -> Hcheck ->.
    assert (truthy (Server.password target)
            && negb (strict_eq (Server.password target) password) = false)
      as ->.
    { destruct Hcheck as [->| <-]; [done|].
      rewrite (proj2 (strict_eq_spec _ _) eq_refl). apply andb_false_r. }
    by run_handler.
Qed.

Lemma join_failures_leave_state_witness :
  let st := Sample.home Sample.bob in
  handleJoinServer st "nowhere" None (Some ()) None st
  = mkOutcome (Normal ()) st [Alert "Server not found."] ∧
  handleJoinServer st "vault" (Some "secret") None None st
  = mkOutcome (Normal ()) st
      [CallJoinServer "s-2" "u-bob"; ConsoleError "Failed to join server:";
       Alert "Failed to join server. Please try again."].
Proof.
  destruct (join_failures_leave_state (Sample.home Sample.bob)
              (Sample.home Sample.bob) Sample.bob "nowhere" None None eq_refl)
    as [Hnone _].
  destruct (join_failures_leave_state (Sample.home Sample.bob)
              (Sample.home Sample.bob) Sample.bob "vault" (Some "secret")
              None eq_refl)
    as [_ Hrej].
  split.
  - exact (Hnone eq_refl (Some ())).
  - exact (Hrej Sample.vault eq_refl (or_intror eq_refl) eq_refl).
Defined.

(** X13.  A user who is already a member and passes the password check makes no
    backend call by joining again: the handler only selects the server and
    its first channel.  When the server has no channel it selects the
    server, keeps the channel and ends with a [TypeError]. *)
Theorem join_member_only_selects (cl st : AppState) (u : User.t)
    (name : string) (password : option string) (joined : option unit)
    (fetched : option (list Server.t)) (target : Server.t)
    (m : ServerMember.t) :
  user cl = Some u ->
  find (λ s, Server.name s === name) (servers cl) = Some target ->
  truthy (Server.password target) = false
  ∨ Server.password target = password ->
  find (λ m, ServerMember.userId m === User.id u) (Server.members target)
  = Some m ->
  handleJoinServer cl name password joined fetched st
  = match Server.channels target with
    | c :: _ =>
        mkOutcome (Normal ())
          (with_activeChannelId (Some (Channel.id c))
             (with_activeServerId (Some (Server.id target)) st)) []
    | [] =>
        mkOutcome (Throw "TypeError")
          (with_activeServerId (Some (Server.id target)) st) []
    end.
Proof.
  intros Hu Hfind Hcheck Hmember. unfold handleJoinServer.
  rewrite Hu, Hfind, Hmember.
  assert (truthy (Server.password target)
          && negb (strict_eq (Server.password target) password) = false)
    as ->.
  { destruct Hcheck as [->| <-]; [done|].
    rewrite (proj2 (strict_eq_spec _ _) eq_refl). apply andb_false_r. }
  run_handler. by destruct (Server.channels target).
Qed.

Lemma join_member_only_selects_witness :
  let st := Sample.home Sample.alice in
  handleJoinServer st "vault" (Some "secret") None None st
  = mkOutcome (Normal ())
      (with_activeChannelId (Some "c-general")
         (with_activeServerId (Some "s-2") st)) [].
Proof.
  exact (join_member_only_selects (Sample.home Sample.alice)
           (Sample.home Sample.alice) Sample.alice "vault" (Some "secret")
           None None Sample.vault (Sample.member_of Sample.alice)
           eq_refl eq_refl (or_intror eq_refl) eq_refl).
Defined.

(** ** Updating a server *)

Lemma with_servers_same (st : AppState) : with_servers (servers st) st = st.
Proof. by destruct st. Qed.

Lemma replace_by_id_ids (U : Server.t) (l : list Server.t) :
  server_ids (map (λ s, if Server.id s === Server.id U then U else s) l)
  = server_ids l.
Proof.
  unfold server_ids. induction l as [|s l IH]; [done|]. cbn.
  rewrite <- IH. f_equal.
  destruct (Server.id s === Server.id U) eqn:Heq; [|done].
  by apply String.eqb_eq in Heq.
Qed.

(** X14.  [handleUpdateServer] maps the server list of the render it was
    created in, [servers cl], whatever the current state [st] is.  The
    resulting list has the server ids of [servers cl], position by position,
    so an active server that is in [servers cl] is in the resulting list.  A
    record whose id [servers cl] lacks is not inserted: the resulting list
    is [servers cl] itself, which from the render of the current state
    leaves the state as it is and from an older render puts the older list
    back.  Calling the handler again with the same record, from the same
    render or from the render of the resulting state, changes nothing
    more. *)
Theorem update_server_keeps_ids (cl st : AppState) (U : Server.t) :
  let st' := state (handleUpdateServer cl U st) in
  server_ids (servers st') = server_ids (servers cl) ∧
  (absent_or_in (activeServerId st) (server_ids (servers cl)) ->
   absent_or_in (activeServerId st') (server_ids (servers st'))) ∧
  (Server.id U ∉ server_ids (servers cl) ->
   st' = with_servers (servers cl) st ∧ (cl = st -> st' = st)) ∧
  state (handleUpdateServer cl U st') = st' ∧
  state (handleUpdateServer st' U st') = st'.
Proof.
  cbn. split; [apply replace_by_id_ids|]. split; [|split; [|split]].
  - by rewrite replace_by_id_ids.
  - intros Hnew.
    assert (map (λ s, if Server.id s === Server.id U then U else s)
              (servers cl) = servers cl) as ->.
    { rewrite <- (map_id (servers cl)) at 2. apply map_ext_in.
      intros s Hs. destruct (Server.id s === Server.id U) eqn:Heq; [|done].
      apply String.eqb_eq in Heq. destruct Hnew. rewrite <- Heq.
      apply server_id_loaded. by apply list_elem_of_In. }
    split; [done|]. intros ->. apply with_servers_same.
  - done.
  - rewrite map_map. unfold with_servers. cbn. f_equal.
    apply map_ext. intros s.
    destruct (Server.id s === Server.id U) eqn:Heq; [|by rewrite Heq].
    by rewrite String.eqb_refl.
Qed.

Lemma update_server_keeps_ids_witness :
  let cl := Sample.home Sample.alice in
  let st := state (onMessage (Sample.hi "m-1") cl) in
  let U := Server.mk "s-9" "ghost" None "u-alice" [] [] [] in
  state (handleUpdateServer cl U cl) = cl ∧
  servers (state (handleUpdateServer cl U st)) = servers cl ∧
  servers st ≠ servers cl.
Proof.
  assert (Hnew : "s-9" ∉ server_ids (servers (Sample.home Sample.alice))).
  { cbn. not_among. }
  split; [|split; [|discriminate]].
  - exact (proj2 (proj1 (proj2 (proj2
             (update_server_keeps_ids (Sample.home Sample.alice)
                (Sample.home Sample.alice)
                (Server.mk "s-9" "ghost" None "u-alice" [] [] []))))
             Hnew) eq_refl).
  - rewrite (proj1 (proj1 (proj2 (proj2
               (update_server_keeps_ids (Sample.home Sample.alice)
                  (state (onMessage (Sample.hi "m-1")
                            (Sample.home Sample.alice)))
                  (Server.mk "s-9" "ghost" None "u-alice" [] [] []))))
               Hnew)).
    reflexivity.
Defined.

(** ** Selecting a server *)

Lemma find_head_by_id (c : Channel.t) (cs : list Channel.t) :
  find (λ x, strict_eq (Some (Channel.id x)) (Some (Channel.id c))) (c :: cs)
  = Some c.
Proof. cbn. by rewrite String.eqb_refl. Qed.

(** X15.  Selecting a loaded server that has a channel, from the render of the
    current state, makes that server the active server and its first channel
    the active channel, and leaves voice.  The chat area then shows that
    channel when it is a text channel; when it is a voice channel no pane is
    shown. *)
Theorem select_server_shows_first_channel (st : AppState) (id : string)
    (server : Server.t) (c : Channel.t) (cs : list Channel.t) :
  find (λ s, Server.id s === id) (servers st) = Some server ->
  Server.channels server = c :: cs ->
  let r := onSelectServer st id st in
  let st' := state r in
  completion r = Normal () ∧ effects r = [] ∧
  activeServer st' = Some server ∧
  activeChannel st' = Some c ∧
  showsVoiceStage st' = false ∧
  showsChatArea st' = ChannelType_eqb (Channel.type c) text ∧
  chatMessages st'
  = (if ChannelType_eqb (Channel.type c) text
     then Some (messages_or_empty c) else None).
Proof.
  intros Hfind Hcs. unfold onSelectServer. run_handler.
  rewrite Hfind, Hcs. cbn.
  assert (Hserver : activeServer
            (with_isVoiceConnected false
               (with_activeChannelId (Some (Channel.id c))
                  (with_activeServerId (Some id) st))) = Some server).
  { exact Hfind. }
  assert (Hchannel : activeChannel
            (with_isVoiceConnected false
               (with_activeChannelId (Some (Channel.id c))
                  (with_activeServerId (Some id) st))) = Some c).
  { unfold activeChannel. rewrite Hserver. cbn. rewrite Hcs.
    apply find_head_by_id. }
  unfold chatMessages, showsChatArea, showsVoiceStage.
  rewrite Hchannel. cbn. by repeat split.
Qed.

Lemma select_server_shows_first_channel_witness :
  let st := Sample.home Sample.alice in
  let st' := state (onSelectServer st "s-2" st) in
  activeServer st' = Some Sample.vault ∧ chatMessages st' = Some [].
Proof.
  destruct (select_server_shows_first_channel (Sample.home Sample.alice)
              "s-2" Sample.vault Sample.general [] eq_refl eq_refl)
    as (_ & _ & Hs & _ & _ & _ & Hm).
  split; [exact Hs|exact Hm].
Defined.

(** X16.  The edges of [onSelectServer].  An id that no loaded server has becomes
    the active server id all the same: the channel is kept, voice is left,
    and the render falls back to the placeholder.  A loaded server without
    channels is selected and then the handler ends in a [TypeError] before
    it leaves voice: channel and voice flag stay as they were. *)
Theorem select_server_edges (cl st : AppState) (id : string) :
  (find (λ s, Server.id s === id) (servers cl) = None ->
   onSelectServer cl id st
   = mkOutcome (Normal ())
       (with_isVoiceConnected false (with_activeServerId (Some id) st)) []) ∧
  (find (λ s, Server.id s === id) (servers st) = None ->
   showsPlaceholder (state (onSelectServer st id st)) = true) ∧
  (∀ server,
     find (λ s, Server.id s === id) (servers cl) = Some server ->
     Server.channels server = [] ->
     onSelectServer cl id st
     = mkOutcome (Throw "TypeError") (with_activeServerId (Some id) st) []).
Proof.
  unfold onSelectServer. run_handler. split; [|split].
  - by intros ->.
  - intros Hnone. rewrite Hnone. cbn. unfold showsPlaceholder, activeServer.
    cbn. by rewrite Hnone.
  - by intros server -> ->.
Qed.

Lemma select_server_edges_witness :
  let st := Sample.home Sample.alice in
  showsPlaceholder (state (onSelectServer st "s-9" st)) = true.
Proof.
  exact (proj1 (proj2 (select_server_edges (Sample.home Sample.alice)
                         (Sample.home Sample.alice) "s-9")) eq_refl).
Defined.

(** ** The panes of the main screen *)

(** X17.  The render never shows the chat area and the voice stage together, and
    shows neither of them while it shows the placeholder. *)
Theorem panes_exclusive (cl : AppState) :
  showsChatArea cl && showsVoiceStage cl = false ∧
  (showsPlaceholder cl = true ->
   showsChatArea cl = false ∧ showsVoiceStage cl = false ∧
   chatMessages cl = None).
Proof.
  unfold chatMessages, showsChatArea, showsVoiceStage, showsPlaceholder,
    activeChannel.
  destruct (activeServer cl) as [s|]; cbn.
  - split; [|done].
    destruct (find _ (Server.channels s)) as [c|]; [|done].
    by destruct (isVoiceConnected cl), (Channel.type c).
  - done.
Qed.

Lemma panes_exclusive_witness :
  let st := booted (Some Sample.alice) (Some []) in
  showsPlaceholder st = true ∧ chatMessages st = None.
Proof.
  split; [reflexivity|].
  exact (proj2 (proj2 (proj2 (panes_exclusive
                                (booted (Some Sample.alice) (Some [])))
                         eq_refl))).
Defined.

(** X18.  Selecting, from the render of the current state, the id of a channel
    of the active server shows the pane of that channel's type: the voice
    stage for a voice channel, the chat area with its messages for a text
    channel.  An id that the active server does not have becomes the active
    channel id all the same, and then no pane is shown. *)
Theorem select_channel_shows_pane (st : AppState) (server : Server.t)
    (id : string) :
  activeServer st = Some server ->
  let st' := state (onSelectChannel server id st) in
  (∀ ch,
     find (λ c, Channel.id c === id) (Server.channels server) = Some ch ->
     activeChannel st' = Some ch ∧
     showsVoiceStage st' = ChannelType_eqb (Channel.type ch) voice ∧
     showsChatArea st' = ChannelType_eqb (Channel.type ch) text ∧
     (Channel.type ch = text ->
      chatMessages st' = Some (messages_or_empty ch))) ∧
  (find (λ c, Channel.id c === id) (Server.channels server) = None ->
   activeChannelId st' = Some id ∧ activeChannel st' = None ∧
   showsVoiceStage st' = false ∧ showsChatArea st' = false).
Proof.
  intros Hactive st'.
  set (found := find (λ c, Channel.id c === id) (Server.channels server)).
  assert (Hst' : ∃ v, st' = with_isVoiceConnected v
                              (with_activeChannelId (Some id) st) ∧
                      v = match found with
                          | Some c => ChannelType_eqb (Channel.type c) voice
                          | None => false
                          end).
  { subst st' found. unfold onSelectChannel. run_handler.
    destruct (find _ (Server.channels server)) as [c|];
      [destruct (Channel.type c)|]; cbn; by eexists. }
  destruct Hst' as (v & Hst' & Hv). clearbody st'. subst st'.
  assert (Hch : activeChannel
                  (with_isVoiceConnected v (with_activeChannelId (Some id) st))
                = found).
  { unfold activeChannel.
    change (activeServer (with_isVoiceConnected v
              (with_activeChannelId (Some id) st)))
      with (activeServer st).
    by rewrite Hactive. }
  unfold chatMessages, showsChatArea, showsVoiceStage. rewrite Hch.
  split.
  - intros ch Hfound. rewrite Hfound in *. subst v. cbn.
    by destruct (Channel.type ch).
  - intros Hfound. by rewrite Hfound.
Qed.

Lemma select_channel_shows_pane_witness :
  let st := Sample.home Sample.alice in
  let st' := state (onSelectChannel Sample.S "c-stage" st) in
  showsVoiceStage st' = true ∧ showsChatArea st' = false.
Proof.
  destruct (proj1 (select_channel_shows_pane (Sample.home Sample.alice)
                     Sample.S "c-stage" eq_refl) Sample.stage eq_refl)
    as (_ & Hv & Hc & _).
  split; [exact Hv|exact Hc].
Defined.

Lemma find_unique_id (c : Channel.t) (cs : list Channel.t) :
  NoDup (Channel.id <$> cs) -> c ∈ cs ->
  find (λ x, Channel.id x === Channel.id c) cs = Some c.
Proof.
  induction cs as [|d cs IH]; intros Hnd Hin.
  - by apply elem_of_nil in Hin.
  - cbn in *. apply NoDup_cons in Hnd as [Hd Hnd].
    apply elem_of_cons in Hin as [->|Hin].
    + by rewrite String.eqb_refl.
    + destruct (Channel.id d === Channel.id c) eqn:Heq.
      * apply String.eqb_eq in Heq. destruct Hd. rewrite Heq.
        by apply list_elem_of_fmap_2.
      * by apply IH.
Qed.

(** X19.  Leaving the voice stage, from a render that shows it.  When the active
    server has a text channel and its channel ids are distinct, the chat
    area of the first text channel is shown afterwards.  When it has no text
    channel, the voice channel stays selected with voice left: no pane and
    no placeholder is shown. *)
Theorem leave_voice_shows_chat (st : AppState) (server : Server.t) :
  showsVoiceStage st = true ->
  activeServer st = Some server ->
  let r := onLeave st st in
  let first_text :=
    find (λ c, ChannelType_eqb (Channel.type c) text)
      (Server.channels server) in
  completion r = Normal () ∧ effects r = [] ∧
  (∀ txt, first_text = Some txt ->
     NoDup (Channel.id <$> Server.channels server) ->
     activeChannel (state r) = Some txt ∧
     showsChatArea (state r) = true ∧
     chatMessages (state r) = Some (messages_or_empty txt)) ∧
  (first_text = None ->
   state r = with_isVoiceConnected false st ∧
   showsChatArea (state r) = false ∧ showsVoiceStage (state r) = false ∧
   showsPlaceholder (state r) = false).
Proof.
  intros Hstage Hactive r first_text.
  assert (Hr : r = mkOutcome (Normal ())
                     (match first_text with
                      | Some t => with_activeChannelId (Some (Channel.id t))
                                    (with_isVoiceConnected false st)
                      | None => with_isVoiceConnected false st
                      end) []).
  { subst r first_text. unfold onLeave. rewrite Hactive. cbn.
    destruct (find _ (Server.channels server)); by run_handler. }
  clearbody r. subst r. cbn [completion effects state].
  split; [done|]. split; [done|]. split.
  - intros txt Htxt Hnd. rewrite Htxt.
    subst first_text. apply find_elem_of in Htxt as [Hin Hty].
    assert (Hch : activeChannel
              (with_activeChannelId (Some (Channel.id txt))
                 (with_isVoiceConnected false st)) = Some txt).
    { unfold activeChannel.
      change (activeServer (with_activeChannelId (Some (Channel.id txt))
                (with_isVoiceConnected false st)))
        with (activeServer st).
      rewrite Hactive. cbn. by apply find_unique_id. }
    unfold chatMessages, showsChatArea. rewrite Hch. cbn. by rewrite Hty.
  - intros Hnone. rewrite Hnone. split; [done|].
    unfold showsVoiceStage, activeChannel in Hstage.
    rewrite Hactive in Hstage. cbn in Hstage.
    unfold showsChatArea, showsVoiceStage, showsPlaceholder, activeChannel.
    change (activeServer (with_isVoiceConnected false st))
      with (activeServer st).
    rewrite Hactive. cbn.
    destruct (find _ (Server.channels server)) as [c|]; [|done].
    destruct (Channel.type c); [|done].
    by rewrite andb_false_r in Hstage.
Qed.

Lemma leave_voice_shows_chat_witness :
  let st := state (onSelectChannel Sample.S "c-stage"
                     (Sample.home Sample.alice)) in
  showsVoiceStage st = true ∧
  activeChannel (state (onLeave st st)) = Some Sample.general.
Proof.
  pose (st := state (onSelectChannel Sample.S "c-stage"
                       (Sample.home Sample.alice))).
  destruct (leave_voice_shows_chat st Sample.S eq_refl eq_refl)
    as (_ & _ & Htxt & _).
  split; [reflexivity|].
  apply (Htxt Sample.general eq_refl).
  cbn. repeat constructor; not_among.
Defined.

(** ** More on the realtime bridge *)

Lemma find_map_pres {A} (f : A -> bool) (g : A -> A) (l : list A) :
  (∀ x, f (g x) = f x) -> find f (map g l) = g <$> find f l.
Proof.
  intros Hpres. induction l as [|x l IH]; [done|].
  cbn. rewrite Hpres. by destruct (f x).
Qed.

Lemma mergeIntoChannel_type (m : Message.t) (ch : Channel.t) :
  Channel.type (mergeIntoChannel m ch) = Channel.type ch ∧
  Channel.name (mergeIntoChannel m ch) = Channel.name ch.
Proof.
  unfold mergeIntoChannel.
  destruct (_ === _); [|done]. by destruct (_ ≫= _).
Qed.

Lemma mergeIntoServer_fixed (m : Message.t) (s : Server.t) :
  (∀ c, c ∈ Server.channels s -> mergeIntoChannel m c = c) ->
  mergeIntoServer m s = s.
Proof.
  intros Hfixed. unfold mergeIntoServer.
  destruct (find _ (Server.channels s)); [|done].
  assert (map (mergeIntoChannel m) (Server.channels s) = Server.channels s)
    as ->; [|by destruct s].
  rewrite <- (map_id (Server.channels s)) at 2. apply map_ext_in.
  intros c Hc. apply Hfixed. by apply list_elem_of_In.
Qed.

Lemma mergeIntoServer_ids (m : Message.t) (l : list Server.t) :
  server_ids (map (mergeIntoServer m) l) = server_ids l ∧
  channel_ids (map (mergeIntoServer m) l) = channel_ids l.
Proof.
  unfold server_ids, channel_ids. induction l as [|s l [IHs IHc]]; [done|].
  cbn. rewrite IHs, IHc, mergeIntoServer_id, mergeIntoServer_channels.
  split; [done|]. f_equal.
  rewrite <- list_fmap_compose. apply list_fmap_ext.
  intros _ c _. apply mergeIntoChannel_id.
Qed.

(** X20.  The callback changes message lists and nothing else.  After any
    sequence of events every state cell but the server list is as before,
    the list has the same server and channel identifiers in the same order,
    every channel keeps its name and type, and a valid selection stays
    valid. *)
Theorem deliver_changes_only_messages (evs : list Message.t) (st : AppState) :
  let st' := deliver evs st in
  st' = with_servers (servers st') st ∧
  server_ids (servers st') = server_ids (servers st) ∧
  channel_ids (servers st') = channel_ids (servers st) ∧
  (∀ i j, (λ c, (Channel.name c, Channel.type c)) <$> channel_at st' i j
          = (λ c, (Channel.name c, Channel.type c)) <$> channel_at st i j) ∧
  (selection_valid st -> selection_valid st').
Proof.
  cbn zeta.
  assert (Hframe : deliver evs st = with_servers (servers (deliver evs st)) st
                   ∧ server_ids (servers (deliver evs st))
                     = server_ids (servers st)
                   ∧ channel_ids (servers (deliver evs st))
                     = channel_ids (servers st)).
  { revert st. induction evs as [|m evs IH]; intros st.
    - cbn. by rewrite with_servers_same.
    - change (deliver (m :: evs) st)
        with (deliver evs (state (onMessage m st))).
      destruct (IH (state (onMessage m st))) as (Heq & Hs & Hc).
      destruct (mergeIntoServer_ids m (servers st)) as [Hs' Hc'].
      split; [|split].
      + rewrite Heq at 1. by destruct st.
      + rewrite Hs. exact Hs'.
      + rewrite Hc. exact Hc'. }
  destruct Hframe as (Heq & Hs & Hc).
  split; [done|]. split; [done|]. split; [done|]. split.
  - intros i j. rewrite channel_at_deliver.
    destruct (channel_at st i j) as [ch|]; [|done]. cbn. f_equal.
    clear. revert ch. induction evs as [|m evs IH]; intros ch; [done|].
    change (merged (m :: evs) ch) with (merged evs (mergeIntoChannel m ch)).
    rewrite IH. by destruct (mergeIntoChannel_type m ch) as [-> ->].
  - intros [Hvs Hvc]. split.
    + rewrite Hs. by rewrite Heq.
    + rewrite Hc. by rewrite Heq.
Qed.

(** X21.  A message addressed to a channel that is not loaded is dropped: the
    state after the callback is the state before. *)
Theorem message_for_unloaded_channel_dropped (m : Message.t) (st : AppState) :
  Message.channelId m ∉ channel_ids (servers st) ->
  state (onMessage m st) = st.
Proof.
  intros Hunknown. cbn.
  assert (map (mergeIntoServer m) (servers st) = servers st)
    as ->; [|apply with_servers_same].
  rewrite <- (map_id (servers st)) at 2. apply map_ext_in.
  intros s Hs. apply mergeIntoServer_fixed. intros c Hc.
  apply mergeIntoChannel_other. intros Heq. apply Hunknown.
  rewrite <- Heq. apply (channel_id_loaded _ s c); [|done].
  by apply list_elem_of_In.
Qed.

Lemma message_for_unloaded_channel_dropped_witness :
  let m := Message.mk "m-1" "c-elsewhere" "hi" "u-bob" "bob" None 0 false in
  state (onMessage m (Sample.home Sample.alice)) = Sample.home Sample.alice.
Proof.
  apply message_for_unloaded_channel_dropped. cbn. not_among.
Defined.

Lemma deliver_changes_only_messages_witness :
  let st := Sample.home Sample.alice in
  (selection_valid st ∧
   servers (deliver [Sample.hi "m-1"] st) ≠ servers st) ∧
  selection_valid (deliver [Sample.hi "m-1"] st).
Proof.
  assert (Hvalid : selection_valid (Sample.home Sample.alice)).
  { split; cbn; [by left|by left]. }
  split; [split; [exact Hvalid|discriminate]|].
  exact (proj2 (proj2 (proj2 (proj2
           (deliver_changes_only_messages [Sample.hi "m-1"]
              (Sample.home Sample.alice))))) Hvalid).
Defined.

Lemma merged_redelivered (evs : list Message.t) (m : Message.t)
    (ch : Channel.t) :
  m ∈ evs -> mergeIntoChannel m (merged evs ch) = merged evs ch.
Proof.
  intros Hin. apply mergeIntoChannel_messages. intros [Hid Hnew].
  rewrite merged_id in Hid. apply Hnew.
  rewrite merged_messages. unfold message_ids. rewrite fmap_app.
  apply elem_of_app.
  apply (first_arrivals_covers _ (addressed_to (Channel.id ch) evs)).
  unfold addressed_to. by apply list_elem_of_filter.
Qed.

(** X22.  Delivering again a message that was already delivered changes nothing:
    the state after the sequence followed by one of its messages is the
    state after the sequence. *)
Theorem redelivery_is_noop (evs : list Message.t) (m : Message.t)
    (st : AppState) :
  m ∈ evs -> deliver (evs ++ [m]) st = deliver evs st.
Proof.
  intros Hin.
  assert (Hstep : deliver (evs ++ [m]) st
                  = state (onMessage m (deliver evs st))).
  { unfold deliver. by rewrite foldl_app. }
  rewrite Hstep. unfold onMessage. cbn [state].
  assert (map (mergeIntoServer m) (servers (deliver evs st))
          = servers (deliver evs st)) as ->; [|apply with_servers_same].
  rewrite <- (map_id (servers (deliver evs st))) at 2. apply map_ext_in.
  intros s Hs. apply mergeIntoServer_fixed. intros c Hc.
  apply list_elem_of_In, list_elem_of_lookup in Hs as [i Hi].
  apply list_elem_of_lookup in Hc as [j Hj].
  assert (Hat : channel_at (deliver evs st) i j = Some c).
  { unfold channel_at. by rewrite Hi. }
  rewrite channel_at_deliver in Hat.
  destruct (channel_at st i j) as [ch|]; [|done].
  injection Hat as <-. by apply merged_redelivered.
Qed.

Lemma redelivery_is_noop_witness :
  let st := Sample.home Sample.alice in
  deliver [Sample.hi "m-1"; Sample.hi "m-2"; Sample.hi "m-1"] st
  = deliver [Sample.hi "m-1"; Sample.hi "m-2"] st.
Proof.
  apply (redelivery_is_noop [Sample.hi "m-1"; Sample.hi "m-2"]
           (Sample.hi "m-1") (Sample.home Sample.alice)).
  by left.
Defined.

Lemma activeChannel_onMessage (m : Message.t) (st : AppState) :
  activeChannel (state (onMessage m st)) = mergeIntoChannel m <$> activeChannel st.
Proof.
  unfold activeChannel, activeServer. cbn.
  rewrite find_map_pres by (intros s; by rewrite mergeIntoServer_id).
  destruct (find _ (servers st)) as [s|]; [|done]. cbn.
  rewrite mergeIntoServer_channels.
  apply find_map_pres. intros c. by rewrite mergeIntoChannel_id.
Qed.

(** X23.  What the user sees when a message arrives.  The open channel and the
    pane stay the same.  When the chat area is shown and the message is
    addressed to the open channel with an id that the channel does not have
    yet, the chat area shows it as the new last message; otherwise the chat
    area shows what it showed before. *)
Theorem arriving_message_shown_last (m : Message.t) (st : AppState)
    (ms : list Message.t) :
  chatMessages st = Some ms ->
  let st' := state (onMessage m st) in
  showsChatArea st' = true ∧ showsVoiceStage st' = false ∧
  ∃ ch, activeChannel st = Some ch ∧
        Channel.id <$> activeChannel st' = Some (Channel.id ch) ∧
        (Channel.id ch = Message.channelId m ∧ Message.id m ∉ message_ids ms ->
         chatMessages st' = Some (ms ++ [m])) ∧
        (¬ (Channel.id ch = Message.channelId m ∧
            Message.id m ∉ message_ids ms) ->
         chatMessages st' = Some ms).
Proof.
  intros Hchat st'. unfold chatMessages in Hchat.
  destruct (showsChatArea st) eqn:Hshown; [|done].
  destruct (activeChannel st) as [ch|] eqn:Hch; [|done].
  cbn in Hchat. injection Hchat as <-.
  assert (Hch' : activeChannel st' = Some (mergeIntoChannel m ch)).
  { subst st'. by rewrite activeChannel_onMessage, Hch. }
  assert (Hshown' : showsChatArea st' = true).
  { unfold showsChatArea in *. rewrite Hch'. rewrite Hch in Hshown.
    by rewrite (proj1 (mergeIntoChannel_type m ch)). }
  split; [done|]. split.
  { unfold showsChatArea, showsVoiceStage in *. rewrite Hch' in *.
    destruct (isVoiceConnected st'); [done|]. done. }
  exists ch. split; [done|]. unfold chatMessages.
  rewrite Hshown', Hch'. cbn. rewrite mergeIntoChannel_id.
  split; [done|].
  destruct (mergeIntoChannel_messages m ch) as [Hadd Hkeep].
  split.
  - intros Hnew. by rewrite Hadd.
  - intros Hold. by rewrite Hkeep.
Qed.

Lemma arriving_message_shown_last_witness :
  let st := Sample.home Sample.alice in
  chatMessages st = Some [] ∧
  chatMessages (state (onMessage (Sample.hi "m-1") st))
  = Some [Sample.hi "m-1"].
Proof.
  split; [reflexivity|].
  destruct (arriving_message_shown_last (Sample.hi "m-1")
              (Sample.home Sample.alice) [] eq_refl)
    as (_ & _ & ch & Hch & _ & Hnew & _).
  apply Hnew. vm_compute in Hch. injection Hch as <-.
  split; [reflexivity|apply not_elem_of_nil].
Defined.

(** ** Sequences of audio clicks *)

Lemma click_eq (t : Toggle) (st : AppState) :
  click t st
  = match t with
    | ClickMute => with_isMuted (negb (isMuted st)) st
    | ClickDeafen =>
        with_isMuted (negb (isDeafened st))
          (with_isDeafened (negb (isDeafened st)) st)
    end.
Proof.
  destruct t; cbn; unfold toggleMute, toggleDeafen.
  - by destruct (isMuted st).
  - by destruct (isDeafened st).
Qed.

Lemma odd_succ_negb (n : nat) : Nat.odd (S n) = negb (Nat.odd n).
Proof. by rewrite Nat.odd_succ, <- Nat.negb_odd. Qed.

(** X24.  After any sequence of clicks the deafen flag is the initial one flipped
    once per deafen click, and no state cell other than the two audio flags
    has changed. *)
Theorem clicks_flip_deafen (ts : list Toggle) (st : AppState) :
  let st' := clicks ts st in
  isDeafened st' = xorb (isDeafened st) (Nat.odd (count_deafen ts)) ∧
  st' = with_isMuted (isMuted st') (with_isDeafened (isDeafened st') st).
Proof.
  cbn zeta. revert st. induction ts as [|t ts IH]; intros st.
  - cbn. split; [by destruct (isDeafened st)|by destruct st].
  - change (clicks (t :: ts) st) with (clicks ts (click t st)).
    destruct (IH (click t st)) as [Hd Hframe]. split.
    + rewrite Hd, click_eq. destruct t.
      * done.
      * change (count_deafen (ClickDeafen :: ts)) with (S (count_deafen ts)).
        rewrite odd_succ_negb. cbn.
        by destruct (isDeafened st), (Nat.odd (count_deafen ts)).
    + rewrite Hframe at 1. rewrite click_eq. by destruct t.
Qed.

Lemma clicks_mute_only (k : nat) (st : AppState) :
  clicks (replicate k ClickMute) st
  = with_isMuted (xorb (isMuted st) (Nat.odd k)) st.
Proof.
  revert st. induction k as [|k IH]; intros st.
  - cbn. rewrite xorb_false_r. by destruct st.
  - change (clicks (replicate (S k) ClickMute) st)
      with (clicks (replicate k ClickMute) (click ClickMute st)).
    rewrite IH, click_eq, odd_succ_negb. cbn.
    unfold with_isMuted. cbn. f_equal.
    by destruct (isMuted st), (Nat.odd k).
Qed.

(** X25.  Where the flags stand after the last deafen click: the mute flag equals
    the deafen flag when an even number of mute clicks followed it and is
    its opposite otherwise.  So "deafened implies muted" fails exactly when
    the last deafen click turned deafen on and an odd number of mute clicks
    followed; with no mute click after it, it always holds. *)
Theorem muted_after_last_deafen (ts : list Toggle) (k : nat) (st : AppState) :
  let st' := clicks (ts ++ ClickDeafen :: replicate k ClickMute) st in
  isMuted st' = xorb (isDeafened st') (Nat.odd k) ∧
  (deafened_implies_muted st' ↔ isDeafened st' = false ∨ Nat.odd k = false).
Proof.
  cbn zeta.
  assert (Heq : isMuted (clicks (ts ++ ClickDeafen :: replicate k ClickMute) st)
                = xorb (isDeafened
                          (clicks (ts ++ ClickDeafen :: replicate k ClickMute)
                             st))
                    (Nat.odd k)).
  { unfold clicks. rewrite foldl_app. fold (clicks ts st).
    change (foldl (λ s t, click t s) (clicks ts st)
              (ClickDeafen :: replicate k ClickMute))
      with (clicks (replicate k ClickMute) (click ClickDeafen (clicks ts st))).
    rewrite clicks_mute_only, click_eq. cbn.
    by destruct (isDeafened (clicks ts st)), (Nat.odd k). }
  split; [done|]. unfold deafened_implies_muted. rewrite Heq.
  destruct (isDeafened _), (Nat.odd k); cbn; split; try done; auto.
  - intros H. by specialize (H eq_refl).
  - intros [?|?]; done.
Qed.

Lemma muted_after_last_deafen_witness :
  ¬ deafened_implies_muted
      (clicks ([ClickMute] ++ ClickDeafen :: replicate 3 ClickMute)
         initialState).
Proof.
  intros H.
  apply (muted_after_last_deafen [ClickMute] 3 initialState) in H.
  destruct H as [H|H]; discriminate H.
Defined.

(** ** The subscription effect *)

Lemma runCleanup_quiet (b : Bridge) :
  bridge_inv b -> quiet (runCleanup b).1.
Proof.
  intros [Hlive Hpending] k h Hk. unfold runCleanup in Hk.
  destruct (cleanup b) as [[id [h'|]]|] eqn:Hc; cbn in Hk.
  - destruct (decide (k = id)) as [->|Hne].
    + by rewrite lookup_delete_eq in Hk.
    + rewrite lookup_delete_ne in Hk by done.
      apply Hlive in Hk. congruence.
  - apply Hlive in Hk. congruence.
  - apply Hlive in Hk. congruence.
Qed.

Lemma runEffect_inv (activeChannelId : option string)
    (subscribed : option Handle) (reg : gmap string (option Handle)) :
  quiet reg -> bridge_inv (runEffect activeChannelId subscribed reg).1.
Proof.
  intros Hquiet. unfold runEffect.
  destruct activeChannelId as [id|]; [|split; [intros k h Hk|done];
                                        by apply Hquiet in Hk].
  destruct (negb (truthy (Some id))) eqn:Htruthy.
  { split; [intros k h Hk; by apply Hquiet in Hk|].
    cbn. by apply negb_true_iff in Htruthy. }
  assert (Hid : id ≠ "").
  { cbn in Htruthy. apply String.eqb_neq.
    by destruct (id === ""). }
  destruct (reg !! id) as [[h|]|] eqn:Hreg.
  - by apply Hquiet in Hreg.
  - split; cbn.
    + intros k h Hk. destruct (decide (id = k)) as [<-|Hne].
      * rewrite lookup_insert_eq in Hk. congruence.
      * rewrite lookup_insert_ne in Hk by done. by apply Hquiet in Hk.
    + by rewrite lookup_insert_eq.
  - split; cbn.
    + intros k h Hk. destruct (decide (id = k)) as [<-|Hne].
      * rewrite lookup_insert_eq in Hk. congruence.
      * rewrite lookup_insert_ne in Hk by done. by apply Hquiet in Hk.
    + by rewrite lookup_insert_eq.
Qed.

Lemma bridgeRendered_inv (activeChannelId : option string)
    (subscribed : option Handle) (b : Bridge) :
  bridge_inv b -> bridge_inv (bridgeRendered activeChannelId subscribed b).1.
Proof.
  intros Hinv. unfold bridgeRendered.
  destruct (strict_eq activeChannelId (lastChannelId b)); [done|].
  pose proof (runCleanup_quiet b Hinv) as Hquiet.
  destruct (runCleanup b) as [reg calls1]. cbn in Hquiet.
  pose proof (runEffect_inv activeChannelId subscribed reg Hquiet) as Hinv'.
  by destruct (runEffect activeChannelId subscribed reg).
Qed.

Lemma bridgeSession_snoc (first : option string * option Handle)
    (later : list (option string * option Handle))
    (r : option string * option Handle) :
  bridgeSession first (later ++ [r])
  = (let '(b, calls) := bridgeSession first later in
     let '(b', calls') := bridgeRendered r.1 r.2 b in
     (b', calls ++ calls')).
Proof. unfold bridgeSession. by rewrite foldl_app. Qed.

Lemma bridgeSession_inv (first : option string * option Handle)
    (later : list (option string * option Handle)) :
  bridge_inv (bridgeSession first later).1.
Proof.
  induction later as [|r later IH] using rev_ind.
  - apply runEffect_inv. intros k h Hk. by rewrite lookup_empty in Hk.
  - rewrite bridgeSession_snoc.
    destruct (bridgeSession first later) as [b calls]. cbn in IH.
    pose proof (bridgeRendered_inv r.1 r.2 b IH) as Hinv.
    by destruct (bridgeRendered r.1 r.2 b).
Qed.

(** X26.  Whatever channels the renders of a session select and whatever the
    subscriptions return, the registry holds at most one handle, and then it
    is the handle of the channel of the last run, the one the pending
    cleanup will unsubscribe; and while a non-empty channel is selected its
    entry is the value the last subscription returned.  Running the pending
    cleanup, as on unmount, leaves no handle in the registry. *)
Theorem bridge_holds_one_subscription
    (first : option string * option Handle)
    (later : list (option string * option Handle)) :
  let b := (bridgeSession first later).1 in
  (∀ k h, registry b !! k = Some (Some h) ->
     lastChannelId b = Some k ∧ cleanup b = Some (k, Some h)) ∧
  (truthy (lastChannelId b) = true ->
   ∃ id s, lastChannelId b = Some id ∧ cleanup b = Some (id, s) ∧
           registry b !! id = Some s) ∧
  (∀ k h, (runCleanup b).1 !! k ≠ Some (Some h)).
Proof.
  cbn zeta. pose proof (bridgeSession_inv first later) as Hinv.
  pose proof (runCleanup_quiet _ Hinv) as Hquiet.
  destruct Hinv as [Hlive Hpending]. split; [|split; [|exact Hquiet]].
  - intros k h Hk. specialize (Hlive k h Hk). rewrite Hlive in Hpending.
    by destruct Hpending as (-> & _).
  - intros Htruthy.
    destruct (cleanup _) as [[id s]|]; [|congruence].
    destruct Hpending as (Hlast & _ & Hreg). by exists id, s.
Qed.

Lemma bridge_holds_one_subscription_witness :
  let b := (bridgeSession (Some "c-general", Some 1%nat)
              [(Some "c-stage", Some 2%nat); (None, None);
               (Some "c-general", Some 3%nat)]).1 in
  registry b !! "c-general" = Some (Some 3%nat) ∧
  registry b !! "c-stage" = None.
Proof.
  destruct (bridge_holds_one_subscription (Some "c-general", Some 1%nat)
              [(Some "c-stage", Some 2%nat); (None, None);
               (Some "c-general", Some 3%nat)])
    as (_ & Hcur & _).
  destruct (Hcur eq_refl) as (id & s & Hlast & Hclean & Hreg).
  vm_compute in Hlast. injection Hlast as <-.
  vm_compute in Hclean. injection Hclean as <-.
  split; [exact Hreg|reflexivity].
Defined.

(** X27.  One render of a session.  With the channel of the last run nothing is
    called.  With another channel the live handle, if there is one, is
    unsubscribed, and then the new channel, if it is a non-empty id, is
    subscribed to exactly once: the guard against a second subscription for
    the same key never holds a subscription back. *)
Theorem bridge_switches_subscription
    (first : option string * option Handle)
    (later : list (option string * option Handle))
    (activeChannelId : option string) (subscribed : option Handle) :
  let b := (bridgeSession first later).1 in
  let out := bridgeRendered activeChannelId subscribed b in
  (activeChannelId = lastChannelId b -> out = (b, [])) ∧
  (activeChannelId ≠ lastChannelId b ->
   out.2
   = match cleanup b with
     | Some (_, Some h) => [Unsubscribe h]
     | _ => []
     end ++
     match activeChannelId with
     | Some id => if id === "" then [] else [Subscribe id]
     | None => []
     end).
Proof.
  cbn zeta. pose proof (bridgeSession_inv first later) as Hinv.
  set (b := (bridgeSession first later).1) in *. clearbody b.
  unfold bridgeRendered. split.
  - intros ->. by rewrite (proj2 (strict_eq_spec _ _) eq_refl).
  - intros Hne.
    destruct (strict_eq activeChannelId (lastChannelId b)) eqn:Heq.
    { by apply strict_eq_spec in Heq. }
    pose proof (runCleanup_quiet b Hinv) as Hquiet.
    unfold runCleanup in *.
    destruct (cleanup b) as [[id0 [h|]]|]; cbn in *;
      (destruct activeChannelId as [id|]; cbn; [|done];
       destruct (id === ""); cbn; [done|];
       match goal with
       | |- context [?reg !! id] =>
           destruct (reg !! id) as [[h'|]|] eqn:Hreg; [|done|done]
       end;
       by apply Hquiet in Hreg).
Qed.

Lemma bridge_switches_subscription_witness :
  (bridgeRendered (Some "c-stage") (Some 2%nat)
     (bridgeSession (Some "c-general", Some 1%nat) []).1).2
  = [Unsubscribe 1%nat; Subscribe "c-stage"].
Proof.
  apply (bridge_switches_subscription (Some "c-general", Some 1%nat) []
           (Some "c-stage") (Some 2%nat)).
  discriminate.
Defined.
